(** * flashcard-generator: a shallow embedding of [generate_flashcards.py]

    The development follows the Python module
    [generate_flashcards/generate_flashcards.py]: the [FlashcardGenerator]
    class with its methods [create_flashcard], [process_file],
    [process_files], [format_flashcards] and [validate_flashcards].

    Python values are the values [json.loads] can produce.  Exceptions are an
    explicit result type; the file system and the log of calls made to the
    language-model collaborator are threaded as explicit state. *)

From Stdlib Require Import String Ascii List ZArith Bool Lia DecimalString.
Import ListNotations.
Open Scope string_scope.

(** ** Strings *)

(** The line feed, written [\n] in the Python source. *)
Definition LF : string := String "010"%char EmptyString.

(** The double quote character, as a one-character string. *)
Definition DQ : string := String "034"%char EmptyString.

(** [str.startswith]. *)
Definition startswith (s pre : string) : bool := String.prefix pre s.

(** [str.endswith]. *)
Definition endswith (s suf : string) : bool :=
  let n := String.length s in
  let k := String.length suf in
  (k <=? n)%nat && String.eqb (String.substring (n - k) k s) suf.

(** [needle in s] for two strings: substring search. *)
Definition str_contains (needle s : string) : bool :=
  match String.index 0 needle s with
  | Some _ => true
  | None => false
  end.

(** [sep.join(parts)]. *)
Fixpoint str_join (sep : string) (parts : list string) : string :=
  match parts with
  | [] => ""
  | [p] => p
  | p :: rest => p ++ sep ++ str_join sep rest
  end.

(** ** Python values and exceptions *)

(** The values [json.loads] returns.  A float is carried by its [repr], the
    only observation the program makes of one (it is printed, and it is not a
    [str], [list] or [dict]).  A [dict] keeps its insertion order; its keys
    are strings, as JSON object keys are. *)
#[warnings="-register-all"]
Inductive pyval : Type :=
| PNone
| PBool (b : bool)
| PInt (n : Z)
| PFloat (repr : string)
| PStr (s : string)
| PList (items : list pyval)
| PDict (items : list (string * pyval)).

(** The exceptions the module raises or lets through. *)
Inductive exn : Type :=
| TypeError
| ValueError (msg : string)
| KeyError (key : string)
| JSONDecodeError
| APIError (msg : string)
| FileNotFoundError
| FileExistsError
| NotADirectoryError
| IsADirectoryError.

Inductive result (A : Type) : Type :=
| Ok (a : A)
| Raise (e : exn).

Arguments Ok {A} a.
Arguments Raise {A} e.

Definition bind {A B : Type} (r : result A) (k : A -> result B) : result B :=
  match r with
  | Ok a => k a
  | Raise e => Raise e
  end.

Declare Scope py_scope.
Delimit Scope py_scope with py.
Notation "x <- e ;; k" := (bind e (fun x => k))
  (at level 100, e at next level, right associativity) : py_scope.
Notation "e ;;; k" := (bind e (fun _ => k))
  (at level 100, right associativity) : py_scope.
Open Scope py_scope.

(** What the interpreter and its library supply and the module only calls:
    [repr] of a [str] (quoting and escaping follow the Unicode database) and
    [json.loads]. *)
Class PyRuntime : Type := {
  repr_str : string -> string;
  json_loads : string -> result pyval
}.

(** [str(n)] for an integer. *)
Definition int_str (n : Z) : string := NilZero.string_of_int (Z.to_int n).

Section Values.
Context {rt : PyRuntime}.

(** [repr(v)]. *)
Fixpoint py_repr (v : pyval) : string :=
  match v with
  | PNone => "None"
  | PBool true => "True"
  | PBool false => "False"
  | PInt n => int_str n
  | PFloat r => r
  | PStr s => repr_str s
  | PList items => "[" ++ str_join ", " (map py_repr items) ++ "]"
  | PDict items =>
      "{" ++ str_join ", "
               (map (fun kv => match kv with
                               | (k, x) => repr_str k ++ ": " ++ py_repr x
                               end) items) ++ "}"
  end.

(** [format(v, "")], what an f-string replacement field [{v}] produces:
    [str(v)], which is the string itself for a [str] and [repr(v)] for the
    other values. *)
Definition py_str (v : pyval) : string :=
  match v with
  | PStr s => s
  | _ => py_repr v
  end.
End Values.

(** [isinstance(v, list)], [isinstance(v, dict)], [isinstance(v, str)]. *)
Definition is_list (v : pyval) : bool :=
  match v with PList _ => true | _ => false end.
Definition is_dict (v : pyval) : bool :=
  match v with PDict _ => true | _ => false end.
Definition is_str (v : pyval) : bool :=
  match v with PStr _ => true | _ => false end.

(** [d[key]] on the items of a dict. *)
Fixpoint dict_get (key : string) (items : list (string * pyval)) : option pyval :=
  match items with
  | [] => None
  | (k, x) :: rest => if String.eqb k key then Some x else dict_get key rest
  end.

(** [key in d] on the items of a dict. *)
Definition dict_has (key : string) (items : list (string * pyval)) : bool :=
  match dict_get key items with
  | Some _ => true
  | None => false
  end.

(** [x == key] for a string [key]: only an equal [str] compares equal. *)
Definition eq_str (key : string) (x : pyval) : bool :=
  match x with
  | PStr s => String.eqb s key
  | _ => false
  end.

(** [key in v] for a string [key]: key membership for a dict, element
    membership for a list, substring search for a str; the other values are
    not containers. *)
Definition py_contains (key : string) (v : pyval) : result bool :=
  match v with
  | PDict items => Ok (dict_has key items)
  | PList items => Ok (existsb (eq_str key) items)
  | PStr s => Ok (str_contains key s)
  | _ => Raise TypeError
  end.

(** [v[key]] for a string [key]: only a dict can be indexed by a string. *)
Definition py_getitem (v : pyval) (key : string) : result pyval :=
  match v with
  | PDict items =>
      match dict_get key items with
      | Some x => Ok x
      | None => Raise (KeyError key)
      end
  | _ => Raise TypeError
  end.

(** The elements [for x in v] visits: the items of a list, the keys of a
    dict, the characters of a str (one-character strings, which hold neither
    of the keys the loops look for). *)
Definition py_iter (v : pyval) : result (list pyval) :=
  match v with
  | PList items => Ok items
  | PDict items => Ok (map (fun kv => PStr (fst kv)) items)
  | PStr s => Ok (map (fun c => PStr (String c EmptyString)) (list_ascii_of_string s))
  | _ => Raise TypeError
  end.

(** [len(v)]. *)
Definition py_len (v : pyval) : result nat :=
  match v with
  | PList items => Ok (List.length items)
  | PDict items => Ok (List.length items)
  | PStr s => Ok (String.length s)
  | _ => Raise TypeError
  end.

(** ** [validate_flashcards] *)

Definition MSG_NOT_LIST : string := "Flashcards must be a list.".
Definition MSG_NOT_DICT : string := "Each flashcard must be a dict.".
Definition MSG_NO_KEYS : string := "Each flashcard must have a 'front' and 'back' key.".
Definition MSG_NOT_STR : string := "The 'front' and 'back' keys must be strings.".

(** The body of the [for card in flashcards] loop of [validate_flashcards]. *)
Definition validate_card (card : pyval) : result unit :=
  if negb (is_dict card) then Raise (ValueError MSG_NOT_DICT)
  else
    has_front <- py_contains "front" card ;;
    has_back <- (if has_front then py_contains "back" card else Ok false) ;;
    if negb has_front || negb has_back then Raise (ValueError MSG_NO_KEYS)
    else
      front <- py_getitem card "front" ;;
      if negb (is_str front) then Raise (ValueError MSG_NOT_STR)
      else
        back <- py_getitem card "back" ;;
        if negb (is_str back) then Raise (ValueError MSG_NOT_STR)
        else Ok tt.

Fixpoint validate_cards (cards : list pyval) : result unit :=
  match cards with
  | [] => Ok tt
  | card :: rest => validate_card card ;;; validate_cards rest
  end.

Definition validate_flashcards (flashcards : pyval) : result unit :=
  if negb (is_list flashcards) then Raise (ValueError MSG_NOT_LIST)
  else
    cards <- py_iter flashcards ;;
    validate_cards cards.

(** ** [format_flashcards] *)

Definition OBSIDIAN : string := "obsidian_spaced_repetition".
Definition TAG_LINE : string := "#flashcards" ++ LF ++ LF.

Section Format.
Context {rt : PyRuntime}.

(** The f-string [f"{front}\n?\n{back}\n\n"]. *)
Definition card_text (front back : pyval) : string :=
  py_str front ++ LF ++ "?" ++ LF ++ py_str back ++ LF ++ LF.

(** One turn of the [for card in flashcards] loop of [format_flashcards]:
    the new value of [output]. *)
Definition format_card (output : string) (card : pyval) : result string :=
  has_front <- py_contains "front" card ;;
  has_back <- (if has_front then py_contains "back" card else Ok false) ;;
  if has_front && has_back then
    front <- py_getitem card "front" ;;
    back <- py_getitem card "back" ;;
    Ok (output ++ card_text front back)
  else Ok output.

Fixpoint format_cards (output : string) (cards : list pyval) : result string :=
  match cards with
  | [] => Ok output
  | card :: rest =>
      output' <- format_card output card ;;
      format_cards output' rest
  end.

Definition format_flashcards (flashcards : pyval) (format_type : string)
    (include_tag : bool) : result string :=
  let output := "" in
  if String.eqb format_type OBSIDIAN then
    let output := if include_tag then output ++ TAG_LINE else output in
    cards <- py_iter flashcards ;;
    format_cards output cards
  else Raise (ValueError ("Invalid format type: " ++ format_type)).
End Format.

(** ** POSIX paths: [os.path] on strings *)

(** [p.split("/")]. *)
Fixpoint split_sep (p : string) : list string :=
  match p with
  | EmptyString => [""]
  | String c rest =>
      if Ascii.eqb c "/" then "" :: split_sep rest
      else match split_sep rest with
           | [] => [String c ""]
           | h :: t => String c h :: t
           end
  end.

(** [os.path.isabs]. *)
Definition isabs (p : string) : bool := startswith p "/".

(** [os.path.join(a, b)]. *)
Definition join (a b : string) : string :=
  if startswith b "/" then b
  else if String.eqb a "" || endswith a "/" then a ++ b
  else a ++ "/" ++ b.

(** [p[:p.rfind("/") + 1]]: the part of [p] up to and including its last
    separator, empty when [p] has none. *)
Fixpoint upto_last_sep (p : string) : string :=
  match p with
  | EmptyString => ""
  | String c rest =>
      let h := upto_last_sep rest in
      if Ascii.eqb c "/" then String c h
      else if String.eqb h "" then "" else String c h
  end.

(** [p.rstrip("/")]. *)
Fixpoint rstrip_sep (p : string) : string :=
  match p with
  | EmptyString => ""
  | String c rest =>
      let r := rstrip_sep rest in
      if Ascii.eqb c "/" && String.eqb r "" then "" else String c r
  end.

(** [os.path.dirname]: the head up to the last separator, without its
    trailing separators unless it consists of separators only. *)
Definition dirname (p : string) : string :=
  let head := upto_last_sep p in
  if String.eqb (rstrip_sep head) "" then head else rstrip_sep head.

(** The component loop of [os.path.normpath] on a path that is absolute:
    empty components and [.] are dropped, [..] removes the component before
    it and is dropped at the root.  [stack] holds the components kept so far,
    the last one first. *)
Fixpoint norm_comps (stack comps : list string) : list string :=
  match comps with
  | [] => rev stack
  | c :: rest =>
      if String.eqb c "" || String.eqb c "." then norm_comps stack rest
      else if String.eqb c ".." then norm_comps (tl stack) rest
      else norm_comps (c :: stack) rest
  end.

(** [[x for x in os.path.abspath(p).split("/") if x]], with [cwd] the value
    of [os.getcwd()]. *)
Definition abs_comps (cwd p : string) : list string :=
  norm_comps [] (split_sep (if isabs p then p else join cwd p)).

(** The length of [os.path.commonprefix([a, b])] for two component lists. *)
Fixpoint common_len (a b : list string) : nat :=
  match a, b with
  | x :: a', y :: b' => if String.eqb x y then S (common_len a' b') else 0
  | _, _ => 0
  end.

(** [os.path.join] applied to a non-empty list of parts. *)
Definition join_all (parts : list string) : string :=
  match parts with
  | [] => ""
  | p :: rest => fold_left join rest p
  end.

(** [os.path.relpath(path, start)]. *)
Definition relpath (cwd path start : string) : result string :=
  if String.eqb path "" then Raise (ValueError "no path specified")
  else
    let start_list := abs_comps cwd start in
    let path_list := abs_comps cwd path in
    let i := common_len start_list path_list in
    let rel_list := (repeat ".." (List.length start_list - i) ++ skipn i path_list)%list in
    match rel_list with
    | [] => Ok "."
    | _ => Ok (join_all rel_list)
    end.

(** ** The file system *)

(** A file system without symbolic links: a tree of directories whose leaves
    are text files.  A directory lists its entries in the order [os.scandir]
    reports them. *)
#[warnings="-register-all"]
Inductive node : Type :=
| File (data : string)
| Dir (entries : list (string * node)).

Fixpoint find_entry (name : string) (entries : list (string * node)) : option node :=
  match entries with
  | [] => None
  | (k, n) :: rest => if String.eqb k name then Some n else find_entry name rest
  end.

(** Replace the entry called [name]; the caller has checked that it exists. *)
Fixpoint set_entry (name : string) (n : node) (entries : list (string * node))
    : list (string * node) :=
  match entries with
  | [] => []
  | (k, x) :: rest =>
      if String.eqb k name then (k, n) :: rest else (k, x) :: set_entry name n rest
  end.

(** The node a list of components leads to from [t]. *)
Fixpoint lookup (p : list string) (t : node) : option node :=
  match p with
  | [] => Some t
  | c :: rest =>
      match t with
      | Dir entries =>
          match find_entry c entries with
          | Some n => lookup rest n
          | None => None
          end
      | File _ => None
      end
  end.

(** Why a list of components leads nowhere from [t]: a regular file stands
    where a directory is needed ([NotADirectoryError]), or an entry is
    missing ([FileNotFoundError]). *)
Fixpoint lookup_error (p : list string) (t : node) : exn :=
  match p with
  | [] => FileNotFoundError
  | c :: rest =>
      match t with
      | Dir entries =>
          match find_entry c entries with
          | Some n => lookup_error rest n
          | None => FileNotFoundError
          end
      | File _ => NotADirectoryError
      end
  end.

(** A chain of new directories: [make_path [a; b]] is a directory holding
    the directory [a], which holds the empty directory [b]. *)
Fixpoint make_path (p : list string) : node :=
  match p with
  | [] => Dir []
  | c :: rest => Dir [(c, make_path rest)]
  end.

(** [os.makedirs(p, exist_ok=True)] below [t]: directories that exist are
    kept, the missing ones are created; a file in the way is an error. *)
Fixpoint mkdirs (p : list string) (t : node) : result node :=
  match p with
  | [] =>
      match t with
      | Dir _ => Ok t
      | File _ => Raise FileExistsError
      end
  | c :: rest =>
      match t with
      | Dir entries =>
          match find_entry c entries with
          | Some n =>
              n' <- mkdirs rest n ;;
              Ok (Dir (set_entry c n' entries))
          | None => Ok (Dir (entries ++ [(c, make_path rest)]))
          end
      | File _ => Raise NotADirectoryError
      end
  end.

(** [open(p, "w")] followed by [write(data)] below [t]: the file is created
    or replaced; its directory must exist. *)
Fixpoint write_node (p : list string) (data : string) (t : node) : result node :=
  match p with
  | [] =>
      match t with
      | File _ => Ok (File data)
      | Dir _ => Raise IsADirectoryError
      end
  | c :: rest =>
      match t with
      | Dir entries =>
          match find_entry c entries with
          | Some n =>
              n' <- write_node rest data n ;;
              Ok (Dir (set_entry c n' entries))
          | None =>
              match rest with
              | [] => Ok (Dir (entries ++ [(c, File data)]))
              | _ :: _ => Raise FileNotFoundError
              end
          end
      | File _ => Raise NotADirectoryError
      end
  end.

Definition is_dir_node (n : node) : bool :=
  match n with Dir _ => true | File _ => false end.

(** The names of the sub-directories and of the files of a directory, as the
    [dirs] and [files] lists of [os.walk]. *)
Definition dir_names (entries : list (string * node)) : list string :=
  map fst (filter (fun kn => is_dir_node (snd kn)) entries).
Definition file_names (entries : list (string * node)) : list string :=
  map fst (filter (fun kn => negb (is_dir_node (snd kn))) entries).

(** ** The world: file system, working directory, collaborator calls *)

(** [calls] logs the user messages sent to the language model, the oldest
    first; [stdout] what was printed. *)
Record world : Type := {
  fs : node;
  cwd : string;
  calls : list string;
  stdout : list string
}.

Definition set_fs (t : node) (w : world) : world :=
  {| fs := t; cwd := cwd w; calls := calls w; stdout := stdout w |}.

(** A computation with effects: it changes the world and returns or raises.
    The world survives an exception. *)
Definition io (A : Type) : Type := world -> world * result A.

Definition io_ret {A : Type} (a : A) : io A := fun w => (w, Ok a).

Definition io_bind {A B : Type} (m : io A) (k : A -> io B) : io B :=
  fun w =>
    match m w with
    | (w', Ok a) => k a w'
    | (w', Raise e) => (w', Raise e)
    end.

Definition lift {A : Type} (r : result A) : io A := fun w => (w, r).

Notation "x <~ e ;; k" := (io_bind e (fun x => k))
  (at level 100, e at next level, right associativity) : py_scope.
Notation "e ~;; k" := (io_bind e (fun _ => k))
  (at level 100, right associativity) : py_scope.

(** The components a path string names.  Paths are resolved as
    [os.path.abspath] normalises them; the empty path names nothing.  For a
    path whose components are names, absolute or relative to the working
    directory, this is the resolution of the operating system; a path with
    [.], [..] or empty components is read as its normal form, also where
    the operating system would first ask for the directories it passes
    through. *)
Definition resolve (w : world) (p : string) : option (list string) :=
  if String.eqb p "" then None else Some (abs_comps (cwd w) p).

(** The node at a path string. *)
Definition node_at (w : world) (p : string) : option node :=
  match resolve w p with
  | Some comps => lookup comps (fs w)
  | None => None
  end.

(** [os.path.exists], as a test on a world and as a step. *)
Definition exists_in (w : world) (p : string) : bool :=
  match node_at w p with
  | Some _ => true
  | None => false
  end.

Definition path_exists (p : string) : io bool :=
  fun w => (w, Ok (exists_in w p)).

(** [os.path.isdir], as a test on a world. *)
Definition isdir (w : world) (p : string) : bool :=
  match node_at w p with
  | Some (Dir _) => true
  | _ => false
  end.

(** [os.makedirs(p, exist_ok=True)]. *)
Definition makedirs (p : string) : io unit :=
  fun w =>
    match resolve w p with
    | None => (w, Raise FileNotFoundError)
    | Some comps =>
        match mkdirs comps (fs w) with
        | Ok t => (set_fs t w, Ok tt)
        | Raise e => (w, Raise e)
        end
    end.

(** The exception [open] raises for a path that names nothing:
    [NotADirectoryError] when a regular file stands where a directory is
    needed, [FileNotFoundError] when an entry is missing. *)
Definition open_error (w : world) (p : string) : exn :=
  match resolve w p with
  | Some comps => lookup_error comps (fs w)
  | None => FileNotFoundError
  end.

(** [open(p, "r", encoding="utf-8")] and [read()].  The data of a file is its
    text as reading it in text mode gives it. *)
Definition read_text (p : string) : io string :=
  fun w =>
    match node_at w p with
    | Some (File data) => (w, Ok data)
    | Some (Dir _) => (w, Raise IsADirectoryError)
    | None => (w, Raise (open_error w p))
    end.

(** [open(p, "w", encoding="utf-8")] and [write(data)]. *)
Definition write_text (p : string) (data : string) : io unit :=
  fun w =>
    match resolve w p with
    | None => (w, Raise FileNotFoundError)
    | Some comps =>
        match write_node comps data (fs w) with
        | Ok t => (set_fs t w, Ok tt)
        | Raise e => (w, Raise e)
        end
    end.

(** [print(text)]. *)
Definition print (text : string) : io unit :=
  fun w => ({| fs := fs w; cwd := cwd w; calls := calls w;
               stdout := stdout w ++ [text] |}, Ok tt).

(** [os.getcwd()]. *)
Definition getcwd : io string := fun w => (w, Ok (cwd w)).

(** The listing [os.walk] takes of a directory when it reaches it; [None]
    when the path is not a directory that can be listed. *)
Definition scandir (top : string) (w : world) : option (list string * list string) :=
  match node_at w top with
  | Some (Dir entries) => Some (dir_names entries, file_names entries)
  | _ => None
  end.

(** The descent of [os.walk] into the sub-directories [dirs] it listed in
    [top], in the order of the listing; [descend] walks one of them.  The
    outcome [None] says that the walk was cut short for lack of fuel. *)
Fixpoint each_dir (descend : string -> world -> world * option (result unit))
    (top : string) (dirs : list string) (w : world) : world * option (result unit) :=
  match dirs with
  | [] => (w, Some (Ok tt))
  | d :: rest =>
      match descend (join top d) w with
      | (w', Some (Ok _)) => each_dir descend top rest w'
      | (w', Some (Raise e)) => (w', Some (Raise e))
      | (w', None) => (w', None)
      end
  end.

(** The loop [for root, dirs, files in os.walk(top): body].  [os.walk] lists
    a directory when it reaches it, hands it to the loop body, and then
    descends into the sub-directories it listed, so what the body creates is
    seen by the listings taken later.  A directory that has disappeared or
    cannot be listed is passed over.  [fuel] bounds the depth of the descent:
    the result is the world reached and the outcome of the loop, [None] when
    the fuel ran out before the walk was over. *)
Fixpoint walk_for (fuel : nat) (top : string)
    (body : string -> list string -> list string -> io unit) (w : world)
    : world * option (result unit) :=
  match fuel with
  | O => (w, None)
  | S fuel' =>
      match scandir top w with
      | None => (w, Some (Ok tt))
      | Some (dirs, files) =>
          match body top dirs files w with
          | (w1, Raise e) => (w1, Some (Raise e))
          | (w1, Ok _) => each_dir (fun sub w => walk_for fuel' sub body w) top dirs w1
          end
      end
  end.

(** ** [FlashcardGenerator] *)

(** The reply of the chat-completion service: [message_content] stands for
    [response.choices[0].message.content], [total_tokens] for
    [response.usage.total_tokens]. *)
Record response : Type := {
  message_content : string;
  total_tokens : Z
}.

(** The attributes [__init__] sets.  [client] is the language-model
    collaborator: given the user messages of the calls made before and the
    user message of this call, it replies or fails.  The system message and
    the response format are the same in every call and are left out. *)
Record FlashcardGenerator : Type := {
  client : list string -> string -> result response;
  model : string;
  input_dir : string;
  output_dir : string
}.

(** [__init__].  The client is built first, from [api_key] or, when that is
    absent or empty, from the environment variable [OPENAI_API_KEY], whose
    value is [env_key]; [OpenAI] is the constructor of the client library,
    which may refuse the key.  Then [model] must be a [str].  [input_dir]
    defaults to the working directory, and the output goes to the directory
    [flashcards] of [output_dir], or of [input_dir] when no [output_dir] is
    given.  An absent argument is [None]; the empty string counts as absent,
    as [not input_dir] has it. *)
Definition init
    (OpenAI : option string -> result (list string -> string -> result response))
    (env_key api_key : option string) (model : pyval)
    (input_dir output_dir : option string) : io FlashcardGenerator :=
  let given (d : option string) : bool :=
    match d with
    | Some s => negb (String.eqb s "")
    | None => false
    end in
  client <~ lift (OpenAI (if given api_key then api_key else env_key)) ;;
  model_name <~ lift (match model with
                      | PStr s => Ok s
                      | _ => Raise TypeError
                      end) ;;
  current <~ getcwd ;;
  let input := if given input_dir then match input_dir with Some s => s | None => "" end
               else current in
  let output := if given output_dir
                then join (match output_dir with Some s => s | None => "" end) "flashcards"
                else join input "flashcards" in
  io_ret {| client := client; model := model_name; input_dir := input;
            output_dir := output |}.

Definition INDENT : string := "        ".

(** The f-string [user_message] of [create_flashcard]. *)
Definition user_message (content : string) : string :=
  LF ++ INDENT ++ "Create a flashcard from the following content:" ++ LF ++
  INDENT ++ content ++ LF ++
  INDENT ++ "NB: Return a valid JSON object." ++ LF ++
  INDENT.

(** [self.client.chat.completions.create(...)]: the call is logged. *)
Definition chat (g : FlashcardGenerator) (message : string) : io response :=
  fun w =>
    ({| fs := fs w; cwd := cwd w; calls := calls w ++ [message]; stdout := stdout w |},
     client g (calls w) message).

Section Generator.
Context {rt : PyRuntime}.

(** [create_flashcard]: the reply is decoded, its ["cards"] entry taken and
    returned.  The [logging.info] line evaluates [len(flashcards)]. *)
Definition create_flashcard (g : FlashcardGenerator) (content : string) : io pyval :=
  response <~ chat g (user_message content) ;;
  lift (decoded <- json_loads (message_content response) ;;
        flashcards <- py_getitem decoded "cards" ;;
        _ <- py_len flashcards ;;
        Ok flashcards).

(** [process_file]. *)
Definition process_file (g : FlashcardGenerator)
    (input_file_path output_file_path : string) (print_output : bool) : io unit :=
  content <~ read_text input_file_path ;;
  flashcards <~ create_flashcard g content ;;
  output_content <~ lift (format_flashcards flashcards OBSIDIAN true) ;;
  if print_output then print output_content
  else write_text output_file_path output_content.

(** The body of [for file in files] in [process_files]. *)
Definition visit_file (g : FlashcardGenerator) (overwrite_files : bool)
    (root file : string) : io unit :=
  if endswith file ".md" then
    let input_file_path := join root file in
    current <~ getcwd ;;
    rel <~ lift (relpath current input_file_path (input_dir g)) ;;
    let output_file_path := join (output_dir g) rel in
    makedirs (dirname output_file_path) ~;;
    found <~ path_exists output_file_path ;;
    if found && negb overwrite_files then io_ret tt
    else process_file g input_file_path output_file_path false
  else io_ret tt.

Fixpoint visit_files (g : FlashcardGenerator) (overwrite_files : bool)
    (root : string) (files : list string) : io unit :=
  match files with
  | [] => io_ret tt
  | file :: rest =>
      visit_file g overwrite_files root file ~;;
      visit_files g overwrite_files root rest
  end.

(** The body of [for root, _, files in os.walk(self.input_dir)]. *)
Definition visit_dir (g : FlashcardGenerator) (overwrite_files : bool)
    (root : string) (dirs files : list string) : io unit :=
  if startswith root (output_dir g) then io_ret tt
  else visit_files g overwrite_files root files.

(** [process_files]; [fuel] is the fuel of the walk. *)
Definition process_files (fuel : nat) (g : FlashcardGenerator)
    (overwrite_files : bool) (w : world) : world * option (result unit) :=
  walk_for fuel (input_dir g) (visit_dir g overwrite_files) w.
End Generator.

(** * Vocabulary of the properties *)

(** ** The shape contract of the validator *)

(** A flashcard record as the contract wants it: a keyed record whose
    [front] and [back] entries are strings. *)
Definition well_formed_record (card : pyval) : Prop :=
  exists items f b,
    card = PDict items /\
    dict_get "front" items = Some (PStr f) /\
    dict_get "back" items = Some (PStr b).

(** The shape contract: a sequence of well-formed records. *)
Definition shape_ok (flashcards : pyval) : Prop :=
  exists cards, flashcards = PList cards /\ Forall well_formed_record cards.

(** The constraint a single element breaks, with the message stating it. *)
Inductive card_violation : pyval -> string -> Prop :=
| not_a_record (card : pyval) :
    is_dict card = false -> card_violation card MSG_NOT_DICT
| missing_key (items : list (string * pyval)) :
    dict_get "front" items = None \/ dict_get "back" items = None ->
    card_violation (PDict items) MSG_NO_KEYS
| not_a_string (items : list (string * pyval)) (f b : pyval) :
    dict_get "front" items = Some f ->
    dict_get "back" items = Some b ->
    is_str f = false \/ is_str b = false ->
    card_violation (PDict items) MSG_NOT_STR.

(** The constraint a payload breaks: it is not a sequence, or its first
    element that is not a well-formed record breaks a constraint. *)
Inductive violation : pyval -> string -> Prop :=
| not_a_sequence (flashcards : pyval) :
    is_list flashcards = false -> violation flashcards MSG_NOT_LIST
| bad_element (before : list pyval) (card : pyval) (after : list pyval) (msg : string) :
    Forall well_formed_record before ->
    card_violation card msg ->
    violation (PList (before ++ card :: after)) msg.

(** ** The text of records *)

Section RecordText.
Context {rt : PyRuntime}.

(** What the recognised style writes for one record: the text of the card
    when the record has both keys, nothing otherwise. *)
Definition record_text (items : list (string * pyval)) : string :=
  match dict_get "front" items, dict_get "back" items with
  | Some front, Some back =>
      py_str front ++ LF ++ "?" ++ LF ++ py_str back ++ LF ++ LF
  | _, _ => ""
  end.

(** The text of a list of records, in the order of the list. *)
Definition records_text (records : list (list (string * pyval))) : string :=
  String.concat "" (map record_text records).

End RecordText.

(** ** What a step keeps *)

(** [n'] continues [n]: a file keeps its contents, a directory stays one. *)
Definition continues (n n' : node) : Prop :=
  match n with
  | File data => n' = File data
  | Dir _ => is_dir_node n' = true
  end.

(** [w'] keeps what [w] holds: the working directory is the same, every file
    of [w] is in [w'] with the same contents, and every directory of [w] is a
    directory of [w']. *)
Definition keeps (w w' : world) : Prop :=
  cwd w' = cwd w /\
  forall q n, lookup q (fs w) = Some n ->
              exists n', lookup q (fs w') = Some n' /\ continues n n'.

(** Worlds with the same files and working directory. *)
Definition same_files (w w' : world) : Prop := fs w' = fs w /\ cwd w' = cwd w.

(** ** Sub-paths *)

Fixpoint comps_prefix (a b : list string) : bool :=
  match a, b with
  | [], _ => true
  | x :: a', y :: b' => String.eqb x y && comps_prefix a' b'
  | _ :: _, [] => false
  end.

(** [p] is [root] or lies below it: the components of [root] begin those of
    [p]. *)
Definition is_subpath (cwd p root : string) : bool :=
  comps_prefix (abs_comps cwd root) (abs_comps cwd p).

(** ** Sample data *)

(** Two reply texts and what [json.loads] returns for them. *)
Definition REPLY_PARIS : string :=
  "{" ++ DQ ++ "cards" ++ DQ ++ ": [{" ++ DQ ++ "front" ++ DQ ++ ": " ++
  DQ ++ "Capital of France?" ++ DQ ++ ", " ++ DQ ++ "back" ++ DQ ++ ": " ++
  DQ ++ "Paris" ++ DQ ++ "}]}".

Definition PARIS_CARDS : pyval :=
  PList [PDict [("front", PStr "Capital of France?"); ("back", PStr "Paris")]].

Definition REPLY_NUMBER : string := "{" ++ DQ ++ "cards" ++ DQ ++ ": [5]}".

(** [json.loads] on the two sample replies; every other text is refused. *)
Definition sample_loads (text : string) : result pyval :=
  if String.eqb text REPLY_PARIS then Ok (PDict [("cards", PARIS_CARDS)])
  else if String.eqb text REPLY_NUMBER then Ok (PDict [("cards", PList [PInt 5])])
  else Raise JSONDecodeError.

(** [repr] of a string of printable ASCII characters without quotes or
    backslashes. *)
Definition sample_repr (s : string) : string := "'" ++ s ++ "'".

Definition sample_runtime : PyRuntime :=
  {| repr_str := sample_repr; json_loads := sample_loads |}.

(** A collaborator that answers every call with the same text. *)
Definition constant_client (text : string) : list string -> string -> result response :=
  fun _ _ => Ok {| message_content := text; total_tokens := 64 |}.

(** The tree [a.md], [sub/b.md], [flashcards/old.md] below [/notes]. *)
Definition notes_tree : node :=
  Dir [("notes",
        Dir [("a.md", File "Paris is the capital of France.");
             ("sub", Dir [("b.md", File "France has a capital.")]);
             ("flashcards", Dir [("old.md", File "kept")])])].

Definition notes_world : world :=
  {| fs := notes_tree; cwd := "/notes"; calls := []; stdout := [] |}.

(** The generator [__init__] builds in [notes_world] from its defaults. *)
Definition notes_generator : FlashcardGenerator :=
  {| client := constant_client REPLY_PARIS; model := "gpt-4-turbo";
     input_dir := "/notes"; output_dir := "/notes/flashcards" |}.

(** A tree with a directory next to the output directory whose name begins
    with [flashcards]. *)
Definition archive_tree : node :=
  Dir [("notes",
        Dir [("a.md", File "Paris is the capital of France.");
             ("flashcards_archive", Dir [("x.md", File "Rome is the capital of Italy.")])])].

Definition archive_world : world :=
  {| fs := archive_tree; cwd := "/notes"; calls := []; stdout := [] |}.

(** A second run: the output of [a.md] is already there. *)
Definition rerun_tree : node :=
  Dir [("notes",
        Dir [("a.md", File "Paris is the capital of France.");
             ("flashcards", Dir [("a.md", File "written by the first run")])])].

Definition rerun_world : world :=
  {| fs := rerun_tree; cwd := "/notes"; calls := []; stdout := [] |}.

(** ** More sample data *)

(** Two more reply texts: a JSON array and an empty JSON object. *)
Definition REPLY_ARRAY : string := "[1]".
Definition REPLY_EMPTY_OBJECT : string := "{}".

(** [json.loads] on the sample replies and on the two above; every other
    text is refused. *)
Definition wider_loads (text : string) : result pyval :=
  if String.eqb text REPLY_ARRAY then Ok (PList [PInt 1])
  else if String.eqb text REPLY_EMPTY_OBJECT then Ok (PDict [])
  else sample_loads text.

Definition wider_runtime : PyRuntime :=
  {| repr_str := sample_repr; json_loads := wider_loads |}.

(** A collaborator whose every call fails. *)
Definition failing_client (e : exn) : list string -> string -> result response :=
  fun _ _ => Raise e.

(** [notes_generator] with another collaborator. *)
Definition notes_generator_with (c : list string -> string -> result response)
    : FlashcardGenerator :=
  {| client := c; model := "gpt-4-turbo";
     input_dir := "/notes"; output_dir := "/notes/flashcards" |}.

(** The text of a card whose front and back are the strings of a pair. *)
Definition pair_text (p : string * string) : string :=
  fst p ++ LF ++ "?" ++ LF ++ snd p ++ LF ++ LF.

(** The record [card] has the strings of the pair as its front and back. *)
Definition card_of_pair (card : pyval) (p : string * string) : Prop :=
  exists items,
    card = PDict items /\
    dict_get "front" items = Some (PStr (fst p)) /\
    dict_get "back" items = Some (PStr (snd p)).

(** A key that holds both [front] and [back] as substrings. *)
Definition key_holds_both (kv : string * pyval) : bool :=
  str_contains "front" (fst kv) && str_contains "back" (fst kv).

(** ** What a run leaves behind *)

(** [w'] outlasts [w]: the working directory and the standard output are the
    same, the log of calls has only grown, and every file and directory of
    [w] is still there in [w'], a file as a file and a directory as a
    directory. *)
Definition outlasts (w w' : world) : Prop :=
  cwd w' = cwd w /\
  stdout w' = stdout w /\
  (exists sent, calls w' = (calls w ++ sent)%list) /\
  forall q n, lookup q (fs w) = Some n ->
              exists n', lookup q (fs w') = Some n' /\ is_dir_node n' = is_dir_node n.

(** The tree holds a file whose name ends in [.md]. *)
Fixpoint has_note (n : node) : bool :=
  match n with
  | File _ => false
  | Dir entries =>
      (fix among (es : list (string * node)) : bool :=
         match es with
         | [] => false
         | (name, x) :: rest =>
             match x with
             | File _ => endswith name ".md"
             | Dir _ => has_note x
             end || among rest
         end) entries
  end.

(** A tree without notes. *)
Definition plain_tree : node :=
  Dir [("notes",
        Dir [("readme.txt", File "No notes here.");
             ("img", Dir [("md", File "not a note"); ("a.mdx", File "nor this")])])].

Definition plain_world : world :=
  {| fs := plain_tree; cwd := "/notes"; calls := []; stdout := [] |}.

(** ** The log of a run *)

(** [answered g history sent strict]: of the messages [sent] after
    [history], each one but the last got a reply from the collaborator, given
    the messages sent before it; with [strict] the last one did too. *)
Inductive answered (g : FlashcardGenerator) : list string -> list string -> bool -> Prop :=
| answered_none (history : list string) (strict : bool) :
    answered g history [] strict
| answered_last (history : list string) (message : string) :
    answered g history [message] false
| answered_next (history : list string) (message : string) (reply : response)
    (rest : list string) (strict : bool) :
    client g history message = Ok reply ->
    answered g (history ++ [message]) rest strict ->
    answered g history (message :: rest) strict.

(** A step ended without an exception. *)
Definition returned {A : Type} (r : result A) : bool :=
  match r with
  | Ok _ => true
  | Raise _ => false
  end.

(** A walk ended without an exception, or was cut short. *)
Definition not_raised (o : option (result unit)) : bool :=
  match o with
  | Some (Raise _) => false
  | _ => true
  end.

(** Between [w] and [w'] messages were sent, and they were [answered]. *)
Definition sends (g : FlashcardGenerator) (w w' : world) (strict : bool) : Prop :=
  exists sent, calls w' = (calls w ++ sent)%list /\ answered g (calls w) sent strict.

(** ** Names and components *)

(** The string holds a separator. *)
Fixpoint has_sep (s : string) : bool :=
  match s with
  | EmptyString => false
  | String c rest => Ascii.eqb c "/" || has_sep rest
  end.

(** A name a directory entry can have: not empty, not [.] or [..], and
    without a separator. *)
Definition proper_name (s : string) : bool :=
  negb (String.eqb s "") && negb (String.eqb s ".") && negb (String.eqb s "..") &&
  negb (has_sep s).

(** The components of a path string taken by itself: what [normpath] keeps
    of it. *)
Definition lexical_comps (p : string) : list string := norm_comps [] (split_sep p).

(** A path string in normal form: its components are proper names, so that
    it names the same thing however the path is resolved. *)
Definition plain_path (p : string) : bool :=
  forallb proper_name (if isabs p then tl (split_sep p) else split_sep p).

(** A regular file stands on the way along the components [p] from [t], or
    at their end: what makes [os.makedirs] fail. *)
Fixpoint blocked (p : list string) (t : node) : bool :=
  match t with
  | File _ => true
  | Dir entries =>
      match p with
      | [] => false
      | c :: rest =>
          match find_entry c entries with
          | Some n => blocked rest n
          | None => false
          end
      end
  end.

(** Every entry of the tree has a proper name, as the entries of a real
    directory have. *)
Fixpoint proper_tree (n : node) : bool :=
  match n with
  | File _ => true
  | Dir entries =>
      (fix all (es : list (string * node)) : bool :=
         match es with
         | [] => true
         | (name, x) :: rest => proper_name name && proper_tree x && all rest
         end) entries
  end.

(** All the names of a list are proper. *)
Definition proper_names (names : list string) : Prop :=
  Forall (fun name => proper_name name = true) names.

(** [w'] has every file of [w] that does not lie at or below the components
    [below], with the same contents. *)
Definition keeps_outside (below : list string) (w w' : world) : Prop :=
  forall q data,
    lookup q (fs w) = Some (File data) ->
    comps_prefix below q = false ->
    lookup q (fs w') = Some (File data).

(** The world has the working directory [c], and its tree has proper
    names. *)
Definition orderly (c : string) (w : world) : Prop :=
  cwd w = c /\ proper_tree (fs w) = true.

(** The path [root] lies below [start] by proper names. *)
Definition lies_below (c start root : string) : Prop :=
  exists names,
    proper_names names /\ abs_comps c root = (abs_comps c start ++ names)%list.

(** * Properties *)

(** ** Strings and results *)

Lemma str_app_assoc (a b c : string) : (a ++ b) ++ c = a ++ (b ++ c).
Proof.
  induction a as [| x a IH]; simpl.
  - reflexivity.
  - now rewrite IH.
Qed.

Lemma str_app_nil_r (a : string) : a ++ "" = a.
Proof.
  induction a as [| x a IH]; simpl.
  - reflexivity.
  - now rewrite IH.
Qed.

Lemma dict_has_false (key : string) (items : list (string * pyval)) :
  dict_has key items = false <-> dict_get key items = None.
Proof.
  unfold dict_has. destruct (dict_get key items); split; congruence.
Qed.

Lemma validate_card_ok (card : pyval) :
  validate_card card = Ok tt <-> well_formed_record card.
Proof.
  split.
  - destruct card as [| b | n | r | s | l | items]; try discriminate.
    unfold validate_card; simpl. unfold dict_has.
    destruct (dict_get "front" items) as [f |] eqn:Hf; simpl; [| discriminate].
    destruct (dict_get "back" items) as [b |] eqn:Hb; simpl; [| discriminate].
    destruct f; simpl; try discriminate.
    destruct b; simpl; try discriminate.
    intros _. unfold well_formed_record. eauto 6.
  - intros (items & f & b & -> & Hf & Hb).
    unfold validate_card; simpl. unfold dict_has. now rewrite Hf, Hb.
Qed.

Lemma validate_card_violation (card : pyval) (msg : string) :
  card_violation card msg -> validate_card card = Raise (ValueError msg).
Proof.
  intros H. destruct H as [card Hd | items Hk | items f b Hf Hb Hs].
  - unfold validate_card. now rewrite Hd.
  - unfold validate_card; simpl. unfold dict_has.
    destruct (dict_get "front" items) as [f |]; simpl; [| reflexivity].
    destruct Hk as [Hk | Hk]; [discriminate |]. now rewrite Hk.
  - unfold validate_card; simpl. unfold dict_has. rewrite Hf, Hb; simpl.
    destruct (is_str f); simpl; [| reflexivity].
    destruct Hs as [Hs | Hs]; [discriminate |]. now rewrite Hs.
Qed.

(** Every value is a well-formed record or breaks one of the constraints. *)
Lemma card_ok_or_violation (card : pyval) :
  well_formed_record card \/ exists msg, card_violation card msg.
Proof.
  destruct card as [| b | n | r | s | l | items];
    try (right; exists MSG_NOT_DICT; now constructor).
  destruct (dict_get "front" items) as [f |] eqn:Hf;
    [| right; exists MSG_NO_KEYS; constructor; now left].
  destruct (dict_get "back" items) as [b |] eqn:Hb;
    [| right; exists MSG_NO_KEYS; constructor; now right].
  destruct (is_str f) eqn:Hsf;
    [| right; exists MSG_NOT_STR; apply (not_a_string items f b Hf Hb); now left].
  destruct (is_str b) eqn:Hsb;
    [| right; exists MSG_NOT_STR; apply (not_a_string items f b Hf Hb); now right].
  left. destruct f; try discriminate. destruct b; try discriminate.
  unfold well_formed_record. eauto 6.
Qed.

Lemma validate_cards_ok (cards : list pyval) :
  validate_cards cards = Ok tt <-> Forall well_formed_record cards.
Proof.
  induction cards as [| card rest IH]; simpl.
  - split; [constructor | reflexivity].
  - split.
    + destruct (validate_card card) as [[] |] eqn:Hc; simpl; [| discriminate].
      intros Hr. constructor; [now apply validate_card_ok | now apply IH].
    + intros H. inversion H as [| ? ? Hc Hr]; subst.
      apply validate_card_ok in Hc. rewrite Hc; simpl. now apply IH.
Qed.

Lemma validate_cards_violation (before : list pyval) (card : pyval)
    (after : list pyval) (msg : string) :
  Forall well_formed_record before ->
  card_violation card msg ->
  validate_cards (before ++ card :: after) = Raise (ValueError msg).
Proof.
  intros Hb Hc. induction Hb as [| x before Hx Hb IH]; simpl.
  - now rewrite (validate_card_violation _ _ Hc).
  - apply validate_card_ok in Hx. now rewrite Hx.
Qed.

(** A list that is not made of well-formed records has a first offender. *)
Lemma first_offender (cards : list pyval) :
  Forall well_formed_record cards \/
  exists before card after msg,
    cards = (before ++ card :: after)%list /\
    Forall well_formed_record before /\ card_violation card msg.
Proof.
  induction cards as [| card rest IH].
  - left; constructor.
  - destruct (card_ok_or_violation card) as [Hc | [msg Hc]].
    + destruct IH as [IH | (before & c & after & msg & -> & Hb & Hv)].
      * left; now constructor.
      * right. exists (card :: before), c, after, msg.
        repeat split; [now constructor | assumption].
    + right. exists [], card, rest, msg. repeat split; [constructor | assumption].
Qed.

(** C4: [validate_flashcards] returns without error exactly on the payloads
    that meet the shape contract (a list of records whose [front] and [back]
    are strings); on a payload that breaks a constraint it raises the
    [ValueError] whose message states that constraint (not a list; an element
    that is not a dict; a record without [front] or [back]; a [front] or
    [back] that is not a string); and every payload that does not meet the
    contract breaks one of them. *)
Theorem validate_flashcards_contract (flashcards : pyval) :
  (validate_flashcards flashcards = Ok tt <-> shape_ok flashcards) /\
  (forall msg, violation flashcards msg ->
               validate_flashcards flashcards = Raise (ValueError msg)) /\
  (~ shape_ok flashcards -> exists msg, violation flashcards msg).
Proof.
  split; [| split].
  - split.
    + destruct flashcards as [| b | n | r | s | cards | items]; try discriminate.
      unfold validate_flashcards; simpl. intros H.
      exists cards. split; [reflexivity | now apply validate_cards_ok].
    + intros (cards & -> & H). unfold validate_flashcards; simpl.
      now apply validate_cards_ok.
  - intros msg H. destruct H as [v Hl | before card after msg Hb Hc].
    + unfold validate_flashcards. now rewrite Hl.
    + unfold validate_flashcards; simpl. now apply validate_cards_violation.
  - intros Hn.
    destruct flashcards as [| b | n | r | s | cards | items];
      try (exists MSG_NOT_LIST; now constructor).
    destruct (first_offender cards) as [H | (before & c & after & msg & -> & Hb & Hv)].
    + exfalso. apply Hn. now exists cards.
    + exists msg. now constructor.
Qed.

(** The four cases of the contract on concrete payloads: a record instead of
    a list, a list holding a number, a record without [back], and a record
    whose [front] is a number. *)
Lemma validate_flashcards_contract_witness :
  let good := PDict [("front", PStr "Q"); ("back", PStr "A")] in
  validate_flashcards (PList [good; good]) = Ok tt /\
  validate_flashcards good = Raise (ValueError MSG_NOT_LIST) /\
  validate_flashcards (PList [good; PInt 7]) = Raise (ValueError MSG_NOT_DICT) /\
  validate_flashcards (PList [PDict [("front", PStr "Q")]]) = Raise (ValueError MSG_NO_KEYS) /\
  validate_flashcards (PList [PDict [("front", PInt 1); ("back", PStr "A")]])
    = Raise (ValueError MSG_NOT_STR) /\
  exists msg, violation PNone msg.
Proof.
  intros good.
  assert (Hgood : well_formed_record good).
  { exists [("front", PStr "Q"); ("back", PStr "A")], "Q", "A". now repeat split. }
  split; [| split; [| split; [| split; [| split]]]].
  - apply (validate_flashcards_contract (PList [good; good])).
    exists [good; good]. split; [reflexivity | now repeat constructor].
  - apply (validate_flashcards_contract good). now constructor.
  - apply (validate_flashcards_contract (PList [good; PInt 7])).
    apply (bad_element [good] (PInt 7) [] MSG_NOT_DICT);
      [now repeat constructor | now constructor].
  - apply (validate_flashcards_contract (PList [PDict [("front", PStr "Q")]])).
    apply (bad_element [] (PDict [("front", PStr "Q")]) [] MSG_NO_KEYS);
      [constructor | constructor; now right].
  - apply (validate_flashcards_contract
             (PList [PDict [("front", PInt 1); ("back", PStr "A")]])).
    apply (bad_element [] (PDict [("front", PInt 1); ("back", PStr "A")]) [] MSG_NOT_STR);
      [constructor |].
    apply (not_a_string _ (PInt 1) (PStr "A")); [reflexivity | reflexivity | now left].
  - apply (validate_flashcards_contract PNone).
    intros (cards & Hc & _). discriminate.
Defined.

(** ** Formatting *)

Section FormatProperties.
Context {rt : PyRuntime}.

Lemma concat_cons (x : string) (xs : list string) :
  String.concat "" (x :: xs) = x ++ String.concat "" xs.
Proof.
  destruct xs as [| y ys]; simpl.
  - now rewrite str_app_nil_r.
  - reflexivity.
Qed.

Lemma records_text_cons (items : list (string * pyval))
    (records : list (list (string * pyval))) :
  records_text (items :: records) = record_text items ++ records_text records.
Proof. unfold records_text. simpl map. apply concat_cons. Qed.

Lemma records_text_app (xs ys : list (list (string * pyval))) :
  records_text (xs ++ ys) = records_text xs ++ records_text ys.
Proof.
  induction xs as [| x xs IH].
  - reflexivity.
  - simpl app. now rewrite !records_text_cons, IH, str_app_assoc.
Qed.

Lemma format_card_record (output : string) (items : list (string * pyval)) :
  format_card output (PDict items) = Ok (output ++ record_text items).
Proof.
  unfold format_card, record_text; simpl. unfold dict_has.
  destruct (dict_get "front" items) as [f |]; simpl.
  - destruct (dict_get "back" items) as [b |]; simpl.
    + reflexivity.
    + now rewrite str_app_nil_r.
  - now rewrite str_app_nil_r.
Qed.

Lemma format_cards_records (records : list (list (string * pyval))) (output : string) :
  format_cards output (map PDict records) = Ok (output ++ records_text records).
Proof.
  revert output. induction records as [| items records IH]; intros output.
  - simpl. now rewrite str_app_nil_r.
  - simpl map. simpl format_cards. rewrite format_card_record. simpl bind.
    now rewrite IH, records_text_cons, str_app_assoc.
Qed.

Lemma format_flashcards_records (records : list (list (string * pyval)))
    (include_tag : bool) :
  format_flashcards (PList (map PDict records)) OBSIDIAN include_tag =
  Ok ((if include_tag then TAG_LINE else "") ++ records_text records).
Proof.
  unfold format_flashcards. rewrite String.eqb_refl. simpl py_iter. simpl bind.
  rewrite format_cards_records. now destruct include_tag.
Qed.

Lemma record_text_incomplete (items : list (string * pyval)) :
  dict_has "front" items = false \/ dict_has "back" items = false ->
  record_text items = "".
Proof.
  unfold record_text. intros [H | H]; apply dict_has_false in H; rewrite H.
  - reflexivity.
  - now destruct (dict_get "front" items).
Qed.

(** C6: in the recognised style, the output is the tag line (when asked
    for) followed by the texts of the records in input order, where a
    record with both keys gives its front, a line holding only [?], its
    back and an empty line, and a record missing a key gives nothing; the
    result is never an error. *)
Theorem format_renders_records_in_order
    (records : list (list (string * pyval))) (include_tag : bool) :
  format_flashcards (PList (map PDict records)) OBSIDIAN include_tag =
  Ok ((if include_tag then TAG_LINE else "") ++
      String.concat ""
        (map (fun items =>
                match dict_get "front" items, dict_get "back" items with
                | Some front, Some back =>
                    py_str front ++ LF ++ "?" ++ LF ++ py_str back ++ LF ++ LF
                | _, _ => ""
                end) records)).
Proof.
  unfold format_flashcards. rewrite String.eqb_refl.
  simpl py_iter. simpl bind.
  rewrite format_cards_records. unfold records_text, record_text.
  destruct include_tag; reflexivity.
Qed.

(** An element that is not a container is outside the reach of the loop: the
    membership test on a number raises a [TypeError]. *)
Lemma format_number_element (include_tag : bool) :
  format_flashcards (PList [PInt 5]) OBSIDIAN include_tag = Raise TypeError.
Proof. now destruct include_tag. Qed.

(** C5: for every payload and every style name other than
    [obsidian_spaced_repetition], [format_flashcards] raises a [ValueError]
    naming the style and returns no string. *)
Theorem format_rejects_other_styles (flashcards : pyval) (format_type : string)
    (include_tag : bool) :
  format_type <> OBSIDIAN ->
  format_flashcards flashcards format_type include_tag =
  Raise (ValueError ("Invalid format type: " ++ format_type)).
Proof.
  intros H. unfold format_flashcards.
  apply String.eqb_neq in H. now rewrite H.
Qed.

(** C7: the single record with front [Capital of France?] and back [Paris],
    formatted in the recognised style with the tag, gives the tag line, an
    empty line, the front, [?], the back and an empty line. *)
Theorem format_capital_of_france :
  format_flashcards
    (PList [PDict [("front", PStr "Capital of France?"); ("back", PStr "Paris")]])
    "obsidian_spaced_repetition" true =
  Ok ("#flashcards" ++ LF ++ LF ++ "Capital of France?" ++ LF ++ "?" ++ LF ++
      "Paris" ++ LF ++ LF).
Proof. reflexivity. Qed.

(** C8: when every record lacks [front] or [back] (the empty list
    included), the recognised style gives exactly the tag line followed by
    an empty line with [include_tag], and the empty string without it. *)
Theorem format_without_complete_records
    (records : list (list (string * pyval))) (include_tag : bool) :
  Forall (fun items => dict_has "front" items = false \/
                       dict_has "back" items = false) records ->
  format_flashcards (PList (map PDict records)) OBSIDIAN include_tag =
  Ok (if include_tag then "#flashcards" ++ LF ++ LF else "").
Proof.
  intros H. rewrite format_flashcards_records.
  assert (Ht : records_text records = "").
  { induction H as [| items records Hi _ IH].
    - reflexivity.
    - now rewrite records_text_cons, (record_text_incomplete _ Hi), IH. }
  rewrite Ht, str_app_nil_r. reflexivity.
Qed.

(** C10: a record that has both keys is rendered wherever it stands in the
    list and whatever its values are, each value through its string
    conversion; so the record whose front is the empty string and whose
    back is the number 5 is rendered, although the validator rejects it. *)
Theorem format_renders_any_values
    (before after : list (list (string * pyval)))
    (items : list (string * pyval)) (front back : pyval) (include_tag : bool) :
  dict_get "front" items = Some front ->
  dict_get "back" items = Some back ->
  format_flashcards (PList (map PDict (before ++ items :: after))) OBSIDIAN include_tag =
  Ok ((if include_tag then TAG_LINE else "") ++ records_text before ++
      (py_str front ++ LF ++ "?" ++ LF ++ py_str back ++ LF ++ LF) ++
      records_text after) /\
  format_flashcards (PList [PDict [("front", PStr ""); ("back", PInt 5)]]) OBSIDIAN false =
  Ok (LF ++ "?" ++ LF ++ "5" ++ LF ++ LF) /\
  validate_flashcards (PList [PDict [("front", PStr ""); ("back", PInt 5)]]) =
  Raise (ValueError MSG_NOT_STR).
Proof.
  intros Hf Hb. split; [| split].
  - rewrite format_flashcards_records, records_text_app, records_text_cons.
    unfold record_text. now rewrite Hf, Hb.
  - reflexivity.
  - reflexivity.
Qed.
End FormatProperties.

(** ** The file system operations *)

Lemma continues_refl (n : node) : continues n n.
Proof. now destruct n. Qed.

Lemma continues_trans (a b c : node) : continues a b -> continues b c -> continues a c.
Proof.
  destruct a as [d | es]; simpl.
  - now intros ->.
  - destruct b as [d | es']; simpl; [discriminate | now intros _].
Qed.

Lemma find_entry_set_same (name : string) (n : node) (entries : list (string * node)) :
  find_entry name entries <> None ->
  find_entry name (set_entry name n entries) = Some n.
Proof.
  induction entries as [| [k x] rest IH]; simpl.
  - congruence.
  - destruct (String.eqb k name) eqn:E; simpl; rewrite E.
    + reflexivity.
    + exact IH.
Qed.

Lemma find_entry_set_other (name other : string) (n : node)
    (entries : list (string * node)) :
  other <> name ->
  find_entry other (set_entry name n entries) = find_entry other entries.
Proof.
  intros Hne. induction entries as [| [k x] rest IH]; simpl.
  - reflexivity.
  - destruct (String.eqb k name) eqn:E; simpl.
    + apply String.eqb_eq in E. subst k.
      assert (En : String.eqb name other = false)
        by (apply String.eqb_neq; congruence).
      now rewrite En.
    + destruct (String.eqb k other); [reflexivity | exact IH].
Qed.

Lemma find_entry_app_old (name : string) (x : node)
    (entries extra : list (string * node)) :
  find_entry name entries = Some x ->
  find_entry name (entries ++ extra) = Some x.
Proof.
  induction entries as [| [k y] rest IH]; simpl.
  - discriminate.
  - destruct (String.eqb k name); [trivial | exact IH].
Qed.

Lemma find_entry_app_new (name : string) (n : node) (entries : list (string * node)) :
  find_entry name entries = None ->
  find_entry name (entries ++ [(name, n)]) = Some n.
Proof.
  induction entries as [| [k y] rest IH]; simpl.
  - now rewrite String.eqb_refl.
  - destruct (String.eqb k name); [discriminate | exact IH].
Qed.

Lemma lookup_make_path (p : list string) : exists entries, lookup p (make_path p) = Some (Dir entries).
Proof.
  induction p as [| c rest IH]; simpl.
  - now exists [].
  - now rewrite String.eqb_refl.
Qed.

(** After [mkdirs] the path is a directory. *)
Lemma mkdirs_isdir (p : list string) (t t' : node) :
  mkdirs p t = Ok t' -> exists entries, lookup p t' = Some (Dir entries).
Proof.
  revert t t'. induction p as [| c rest IH]; intros t t'; simpl.
  - destruct t as [d | es]; [discriminate |]. intros [= <-]. now exists es.
  - destruct t as [d | es]; [discriminate |].
    destruct (find_entry c es) as [n |] eqn:Hc.
    + destruct (mkdirs rest n) as [n' |] eqn:Hm; simpl; [| discriminate].
      intros [= <-]. simpl. rewrite find_entry_set_same by congruence.
      now apply (IH n).
    + intros [= <-]. simpl. rewrite (find_entry_app_new _ _ _ Hc).
      apply lookup_make_path.
Qed.

(** [mkdirs] keeps what exists: every file with its contents, every
    directory as a directory. *)
Lemma mkdirs_continues (p : list string) (t t' : node) :
  mkdirs p t = Ok t' ->
  forall q n, lookup q t = Some n ->
  exists n', lookup q t' = Some n' /\ continues n n'.
Proof.
  revert t t'. induction p as [| c rest IH]; intros t t'; simpl.
  - destruct t as [d | es]; [discriminate |]. intros [= <-] q n Hq.
    exists n. split; [assumption | apply continues_refl].
  - destruct t as [d | es]; [discriminate |].
    destruct (find_entry c es) as [m |] eqn:Hc.
    + destruct (mkdirs rest m) as [m' |] eqn:Hm; simpl; [| discriminate].
      intros [= <-] q n Hq. destruct q as [| c' q'].
      * simpl in Hq. injection Hq as <-. exists (Dir (set_entry c m' es)). now split.
      * simpl in Hq |- *. destruct (String.eqb c' c) eqn:E.
        -- apply String.eqb_eq in E. subst c'. rewrite Hc in Hq.
           rewrite find_entry_set_same by congruence. now apply (IH m).
        -- apply String.eqb_neq in E. rewrite (find_entry_set_other _ _ _ _ E).
           destruct (find_entry c' es) as [x |]; [| discriminate].
           exists n. split; [assumption | apply continues_refl].
    + intros [= <-] q n Hq. destruct q as [| c' q'].
      * simpl in Hq. injection Hq as <-. now eexists.
      * simpl in Hq |- *. destruct (find_entry c' es) as [x |] eqn:Hx; [| discriminate].
        rewrite (find_entry_app_old _ _ _ _ Hx).
        exists n. split; [assumption | apply continues_refl].
Qed.

Lemma set_entry_same (c : string) (n : node) (entries : list (string * node)) :
  find_entry c entries = Some n -> set_entry c n entries = entries.
Proof.
  induction entries as [| [k x] rest IH]; simpl.
  - reflexivity.
  - destruct (String.eqb k c).
    + now intros [= ->].
    + intros H. now rewrite (IH H).
Qed.

Lemma lookup_app (p q : list string) (t : node) :
  lookup (p ++ q) t =
  match lookup p t with
  | Some n => lookup q n
  | None => None
  end.
Proof.
  revert t. induction p as [| c rest IH]; intros t; simpl.
  - reflexivity.
  - destruct t as [d | es]; [reflexivity |].
    destruct (find_entry c es) as [n |]; [apply IH | reflexivity].
Qed.

(** The last of the directories [make_path] chains is empty, and the chain
    holds no file. *)
Lemma lookup_make_path_empty (p : list string) : lookup p (make_path p) = Some (Dir []).
Proof.
  induction p as [| c rest IH]; simpl.
  - reflexivity.
  - now rewrite String.eqb_refl.
Qed.

Lemma make_path_no_file (p q : list string) (data : string) :
  lookup q (make_path p) <> Some (File data).
Proof.
  revert q. induction p as [| c rest IH]; intros q.
  - destruct q as [| x q']; simpl; discriminate.
  - destruct q as [| x q']; simpl; [discriminate |].
    destruct (String.eqb c x); [apply IH | discriminate].
Qed.

(** What [mkdirs] does: nothing when the directory is there, and otherwise
    it makes a directory, empty, where nothing was. *)
Lemma mkdirs_cases (p : list string) (t t' : node) :
  mkdirs p t = Ok t' ->
  (t' = t /\ exists entries, lookup p t = Some (Dir entries)) \/
  (lookup p t = None /\ lookup p t' = Some (Dir [])).
Proof.
  revert t t'. induction p as [| c rest IH]; intros t t'; simpl.
  - destruct t as [d | es]; [discriminate |]. intros [= <-]. left. split; [reflexivity | now exists es].
  - destruct t as [d | es]; [discriminate |].
    destruct (find_entry c es) as [m |] eqn:Hc.
    + destruct (mkdirs rest m) as [m' |] eqn:Hm; simpl; [| discriminate].
      intros [= <-]. destruct (IH m m' Hm) as [[-> Hdir] | [Hnone Hnew]].
      * left. split; [| assumption]. now rewrite (set_entry_same c m es Hc).
      * right. split; [assumption |].
        rewrite find_entry_set_same by congruence. assumption.
    + intros [= <-]. right. split; [reflexivity |].
      rewrite (find_entry_app_new c _ es Hc). apply lookup_make_path_empty.
Qed.

(** [mkdirs] makes no file. *)
Lemma mkdirs_no_new_file (p : list string) (t t' : node) :
  mkdirs p t = Ok t' ->
  forall q data, lookup q t' = Some (File data) -> lookup q t = Some (File data).
Proof.
  revert t t'. induction p as [| c rest IH]; intros t t'; simpl.
  - destruct t as [d | es]; [discriminate |]. now intros [= <-].
  - destruct t as [d | es]; [discriminate |].
    destruct (find_entry c es) as [m |] eqn:Hc.
    + destruct (mkdirs rest m) as [m' |] eqn:Hm; simpl; [| discriminate].
      intros [= <-] q data. destruct q as [| x q']; simpl; [discriminate |].
      destruct (String.eqb x c) eqn:E.
      * apply String.eqb_eq in E. subst x.
        rewrite find_entry_set_same by congruence. rewrite Hc. apply (IH m m' Hm).
      * apply String.eqb_neq in E. now rewrite (find_entry_set_other _ _ _ _ E).
    + intros [= <-] q data. destruct q as [| x q']; simpl; [discriminate |].
      destruct (find_entry x es) as [n |] eqn:Hx.
      * now rewrite (find_entry_app_old _ _ _ _ Hx).
      * destruct (String.eqb x c) eqn:E.
        -- apply String.eqb_eq in E. subst x. rewrite (find_entry_app_new c _ es Hc).
           intros H. now apply make_path_no_file in H.
        -- assert (Hn : find_entry x (es ++ [(c, make_path rest)]) = None).
           { clear Hc. induction es as [| [k y] es' IHes]; simpl in *.
             - rewrite String.eqb_sym, E. reflexivity.
             - destruct (String.eqb k x); [discriminate | now apply IHes]. }
           rewrite Hn. discriminate.
Qed.

(** [mkdirs] leaves the tree as it is when the directory is there. *)
Lemma mkdirs_present (p : list string) (t : node) (entries : list (string * node)) :
  lookup p t = Some (Dir entries) -> mkdirs p t = Ok t.
Proof.
  revert t. induction p as [| c rest IH]; intros t; simpl.
  - now intros [= ->].
  - destruct t as [d | es]; [discriminate |].
    destruct (find_entry c es) as [m |] eqn:Hc; [| discriminate].
    intros H. rewrite (IH m H). simpl. now rewrite (set_entry_same c m es Hc).
Qed.

(** [mkdirs] succeeds exactly when no regular file is in the way. *)
Lemma mkdirs_blocked (p : list string) (t : node) :
  if blocked p t then exists e, mkdirs p t = Raise e
  else exists t', mkdirs p t = Ok t'.
Proof.
  revert t. induction p as [| c rest IH]; intros t.
  - destruct t as [d | es]; simpl; eauto.
  - destruct t as [d | es]; simpl; [eauto |].
    destruct (find_entry c es) as [m |]; [| eauto].
    specialize (IH m). destruct (blocked rest m).
    + destruct IH as [e ->]. simpl. eauto.
    + destruct IH as [m' ->]. simpl. eauto.
Qed.

(** [write_node] keeps what exists, except the contents of the file it
    writes. *)
Lemma write_node_continues (p : list string) (data : string) (t t' : node) :
  write_node p data t = Ok t' ->
  forall q n, lookup q t = Some n ->
  exists n', lookup q t' = Some n' /\ (continues n n' \/ q = p).
Proof.
  revert t t'. induction p as [| c rest IH]; intros t t'; simpl.
  - destruct t as [d | es]; [| discriminate]. intros [= <-] q n Hq.
    destruct q as [| c' q']; [| discriminate].
    exists (File data). split; [reflexivity | now right].
  - destruct t as [d | es]; [discriminate |].
    destruct (find_entry c es) as [m |] eqn:Hc.
    + destruct (write_node rest data m) as [m' |] eqn:Hm; simpl; [| discriminate].
      intros [= <-] q n Hq. destruct q as [| c' q'].
      * simpl in Hq. injection Hq as <-. eexists. split; [reflexivity | now left].
      * simpl in Hq |- *. destruct (String.eqb c' c) eqn:E.
        -- apply String.eqb_eq in E. subst c'. rewrite Hc in Hq.
           rewrite find_entry_set_same by congruence.
           destruct (IH m m' Hm q' n Hq) as (n' & Hn' & [Hk | ->]).
           ++ exists n'. split; [assumption | now left].
           ++ exists n'. split; [assumption | now right].
        -- apply String.eqb_neq in E. rewrite (find_entry_set_other _ _ _ _ E).
           destruct (find_entry c' es) as [x |]; [| discriminate].
           exists n. split; [assumption | left; apply continues_refl].
    + destruct rest as [| c2 rest']; [| discriminate].
      intros [= <-] q n Hq. destruct q as [| c' q'].
      * simpl in Hq. injection Hq as <-. eexists. split; [reflexivity | now left].
      * simpl in Hq |- *. destruct (find_entry c' es) as [x |] eqn:Hx; [| discriminate].
        rewrite (find_entry_app_old _ _ _ _ Hx).
        exists n. split; [assumption | left; apply continues_refl].
Qed.

(** A directory is never replaced by [write_node]. *)
Lemma write_node_keeps_dirs (p : list string) (data : string) (t t' : node) :
  write_node p data t = Ok t' ->
  forall q entries, lookup q t = Some (Dir entries) ->
  exists entries', lookup q t' = Some (Dir entries').
Proof.
  revert t t'. induction p as [| c rest IH]; intros t t'; simpl.
  - destruct t as [d | es]; [| discriminate]. intros [= <-] q entries Hq.
    destruct q; discriminate.
  - destruct t as [d | es]; [discriminate |].
    destruct (find_entry c es) as [m |] eqn:Hc.
    + destruct (write_node rest data m) as [m' |] eqn:Hm; simpl; [| discriminate].
      intros [= <-] q entries Hq. destruct q as [| c' q'].
      * now eexists.
      * simpl in Hq |- *. destruct (String.eqb c' c) eqn:E.
        -- apply String.eqb_eq in E. subst c'. rewrite Hc in Hq.
           rewrite find_entry_set_same by congruence. now apply (IH m m' Hm q' entries).
        -- apply String.eqb_neq in E. rewrite (find_entry_set_other _ _ _ _ E).
           destruct (find_entry c' es) as [x |]; [| discriminate]. now exists entries.
    + destruct rest as [| c2 rest']; [| discriminate].
      intros [= <-] q entries Hq. destruct q as [| c' q'].
      * now eexists.
      * simpl in Hq |- *. destruct (find_entry c' es) as [x |] eqn:Hx; [| discriminate].
        rewrite (find_entry_app_old _ _ _ _ Hx). now exists entries.
Qed.

Lemma keeps_refl (w : world) : keeps w w.
Proof.
  split; [reflexivity |]. intros q n H. exists n. split; [assumption | apply continues_refl].
Qed.

Lemma keeps_trans (a b c : world) : keeps a b -> keeps b c -> keeps a c.
Proof.
  intros [Hc1 H1] [Hc2 H2]. split; [congruence |].
  intros q n Hq. destruct (H1 q n Hq) as (n1 & Hq1 & Hk1).
  destruct (H2 q n1 Hq1) as (n2 & Hq2 & Hk2).
  exists n2. split; [assumption | now apply continues_trans with n1].
Qed.

Lemma keeps_same_fs (w w' : world) : fs w' = fs w -> cwd w' = cwd w -> keeps w w'.
Proof.
  intros Hf Hc. split; [assumption |]. rewrite Hf. intros q n H.
  exists n. split; [assumption | apply continues_refl].
Qed.

(** A file that [w] has at a path string is there in every world that keeps
    [w]. *)
Lemma keeps_file (w w' : world) (p data : string) :
  keeps w w' -> node_at w p = Some (File data) -> node_at w' p = Some (File data).
Proof.
  intros [Hc Hk]. unfold node_at, resolve. rewrite Hc.
  destruct (String.eqb p ""); [discriminate |].
  intros H. destruct (Hk _ _ H) as (n' & Hn' & Hcont). simpl in Hcont. congruence.
Qed.

Lemma makedirs_keeps (p : string) (w : world) : keeps w (fst (makedirs p w)).
Proof.
  unfold makedirs. destruct (resolve w p) as [comps |]; [| apply keeps_refl].
  destruct (mkdirs comps (fs w)) as [t |] eqn:H; [| apply keeps_refl].
  split; [reflexivity |]. simpl. now apply mkdirs_continues with comps.
Qed.

Lemma makedirs_calls (p : string) (w : world) : calls (fst (makedirs p w)) = calls w.
Proof.
  unfold makedirs. destruct (resolve w p) as [comps |]; [| reflexivity].
  now destruct (mkdirs comps (fs w)).
Qed.

Lemma makedirs_raise (p : string) (w : world) (e : exn) :
  snd (makedirs p w) = Raise e -> fst (makedirs p w) = w.
Proof.
  unfold makedirs. destruct (resolve w p) as [comps |]; [| reflexivity].
  now destruct (mkdirs comps (fs w)).
Qed.

(** When [makedirs] returns, the path is a directory. *)
Lemma makedirs_isdir (p : string) (w : world) :
  snd (makedirs p w) = Ok tt -> isdir (fst (makedirs p w)) p = true.
Proof.
  unfold makedirs, isdir, node_at.
  destruct (resolve w p) as [comps |] eqn:Hr; [| discriminate].
  destruct (mkdirs comps (fs w)) as [t |] eqn:H; [| discriminate].
  intros _. simpl. unfold resolve in *. simpl.
  destruct (String.eqb p ""); [discriminate |]. injection Hr as <-.
  destruct (mkdirs_isdir _ _ _ H) as [es Hes]. now rewrite Hes.
Qed.

Lemma set_fs_same (w : world) : set_fs (fs w) w = w.
Proof. now destruct w. Qed.

(** [makedirs] makes no file. *)
Lemma makedirs_no_new_file (d : string) (w : world) (p data : string) :
  node_at (fst (makedirs d w)) p = Some (File data) -> node_at w p = Some (File data).
Proof.
  unfold makedirs. destruct (resolve w d) as [comps |]; [| trivial].
  destruct (mkdirs comps (fs w)) as [t |] eqn:H; [| trivial].
  unfold node_at, resolve. simpl.
  destruct (String.eqb p ""); [discriminate |].
  apply (mkdirs_no_new_file _ _ _ H).
Qed.

(** Writing a file at a path where nothing is keeps everything. *)
Lemma write_text_new_keeps (p data : string) (w : world) :
  node_at w p = None -> keeps w (fst (write_text p data w)).
Proof.
  unfold write_text, node_at. destruct (resolve w p) as [comps |]; [| intros _; apply keeps_refl].
  intros Hnone. destruct (write_node comps data (fs w)) as [t |] eqn:H; [| apply keeps_refl].
  split; [reflexivity |]. simpl. intros q n Hq.
  destruct (write_node_continues _ _ _ _ H q n Hq) as (n' & Hn' & [Hk | ->]).
  - now exists n'.
  - congruence.
Qed.

(** Writing a file never removes a directory. *)
Lemma write_text_isdir (p data : string) (w : world) (d : string) :
  isdir w d = true -> isdir (fst (write_text p data w)) d = true.
Proof.
  unfold write_text. destruct (resolve w p) as [comps |]; [| trivial].
  destruct (write_node comps data (fs w)) as [t |] eqn:H; [| trivial].
  unfold isdir, node_at, resolve. simpl.
  destruct (String.eqb d ""); [discriminate |].
  destruct (lookup (abs_comps (cwd w) d) (fs w)) as [[x | es] |] eqn:Hd; try discriminate.
  intros _. destruct (write_node_keeps_dirs _ _ _ _ H _ _ Hd) as [es' Hes']. now rewrite Hes'.
Qed.

Lemma same_files_node_at (w w' : world) (p : string) :
  same_files w w' -> node_at w' p = node_at w p.
Proof. intros [Hf Hc]. unfold node_at, resolve. now rewrite Hf, Hc. Qed.

Lemma same_files_isdir (w w' : world) (p : string) :
  same_files w w' -> isdir w' p = isdir w p.
Proof. intros H. unfold isdir. now rewrite (same_files_node_at _ _ _ H). Qed.

Section ProcessProperties.
Context {rt : PyRuntime}.

(** [create_flashcard] touches no file. *)
Lemma create_flashcard_same_files (g : FlashcardGenerator) (text : string) (w : world) :
  same_files w (fst (create_flashcard g text w)).
Proof.
  unfold create_flashcard, io_bind, chat, lift.
  destruct (client g (calls w) (user_message text)); now split.
Qed.

(** Up to its last step, [process_file] touches no file: [process_file]
    raises from a world with the same files, or ends with [print] or
    [write_text] from such a world. *)
Lemma process_file_steps (g : FlashcardGenerator) (inp out : string)
    (print_output : bool) (w : world) :
  (same_files w (fst (process_file g inp out print_output w))) \/
  (exists w1 text, same_files w w1 /\ print_output = false /\
                   process_file g inp out print_output w = write_text out text w1).
Proof.
  unfold process_file, io_bind.
  destruct (read_text inp w) as [w0 [data | e]] eqn:Hr.
  - assert (Hw0 : w0 = w).
    { unfold read_text in Hr. destruct (node_at w inp) as [[d | es] |]; congruence. }
    subst w0.
    pose proof (create_flashcard_same_files g data w) as Hs.
    destruct (create_flashcard g data w) as [w1 [cards | e]]; simpl in Hs.
    + unfold lift.
      destruct (format_flashcards cards OBSIDIAN true) as [text | e].
      * destruct print_output.
        -- left. unfold print; simpl. destruct Hs. now split.
        -- right. now exists w1, text.
      * now left.
    + now left.
  - left. unfold read_text in Hr.
    destruct (node_at w inp) as [[d | es] |]; injection Hr as <- _; now split.
Qed.

(** [process_file] keeps everything when nothing is at the output path. *)
Lemma process_file_new_keeps (g : FlashcardGenerator) (inp out : string) (w : world) :
  node_at w out = None -> keeps w (fst (process_file g inp out false w)).
Proof.
  intros Hnone.
  destruct (process_file_steps g inp out false w) as [[Hf Hc] | (w1 & text & Hs & _ & ->)].
  - now apply keeps_same_fs.
  - apply keeps_trans with w1.
    + destruct Hs. now apply keeps_same_fs.
    + apply write_text_new_keeps. now rewrite (same_files_node_at _ _ _ Hs).
Qed.

(** [process_file] never removes a directory. *)
Lemma process_file_isdir (g : FlashcardGenerator) (inp out : string)
    (print_output : bool) (w : world) (d : string) :
  isdir w d = true -> isdir (fst (process_file g inp out print_output w)) d = true.
Proof.
  intros Hd.
  destruct (process_file_steps g inp out print_output w) as [Hs | (w1 & text & Hs & _ & ->)].
  - now rewrite (same_files_isdir _ _ _ Hs).
  - apply write_text_isdir. now rewrite (same_files_isdir _ _ _ Hs).
Qed.
End ProcessProperties.

(** ** Directory traversal *)

Section TraversalProperties.
Context {rt : PyRuntime}.

(** The body of the file loop for a note, step by step: [makedirs] on the
    directory of the output path comes first; if it raises, that is the
    outcome; otherwise the output path is looked for in the world
    [makedirs] leaves, and the note is skipped or processed there. *)
Lemma visit_file_note (g : FlashcardGenerator) (overwrite_files : bool)
    (root file rel : string) (w : world) :
  endswith file ".md" = true ->
  relpath (cwd w) (join root file) (input_dir g) = Ok rel ->
  let out := join (output_dir g) rel in
  let made := makedirs (dirname out) w in
  visit_file g overwrite_files root file w =
  match snd made with
  | Raise e => (fst made, Raise e)
  | Ok _ =>
      if exists_in (fst made) out && negb overwrite_files then (fst made, Ok tt)
      else process_file g (join root file) out false (fst made)
  end.
Proof.
  intros Hmd Hrel out made. unfold visit_file. rewrite Hmd.
  unfold io_bind at 1. unfold getcwd at 1. unfold io_bind at 1. unfold lift at 1.
  rewrite Hrel. unfold io_bind at 1. fold out. fold made.
  destruct made as [w1 [[] | e]]; simpl.
  - unfold io_bind, path_exists, exists_in.
    destruct (node_at w1 out); simpl; destruct overwrite_files; reflexivity.
  - reflexivity.
Qed.

(** With [overwrite_files] false, the body of the file loop keeps
    everything that exists. *)
Lemma visit_file_keeps (g : FlashcardGenerator) (root file : string) (w : world) :
  keeps w (fst (visit_file g false root file w)).
Proof.
  destruct (endswith file ".md") eqn:Hmd;
    [| unfold visit_file; rewrite Hmd; apply keeps_refl].
  destruct (relpath (cwd w) (join root file) (input_dir g)) as [rel | e] eqn:Hrel.
  - rewrite (visit_file_note g false root file rel w Hmd Hrel).
    set (out := join (output_dir g) rel).
    pose proof (makedirs_keeps (dirname out) w) as Hk.
    destruct (makedirs (dirname out) w) as [w1 [[] | e]]; simpl in *; [| assumption].
    rewrite andb_true_r. unfold exists_in.
    destruct (node_at w1 out) eqn:Hn; [assumption |].
    apply keeps_trans with w1; [assumption | now apply process_file_new_keeps].
  - unfold visit_file. rewrite Hmd. unfold io_bind, getcwd, lift. rewrite Hrel.
    apply keeps_refl.
Qed.

Lemma visit_files_keeps (g : FlashcardGenerator) (root : string)
    (files : list string) (w : world) :
  keeps w (fst (visit_files g false root files w)).
Proof.
  revert w. induction files as [| file rest IH]; intros w; simpl.
  - apply keeps_refl.
  - unfold io_bind. pose proof (visit_file_keeps g root file w) as Hk.
    destruct (visit_file g false root file w) as [w1 [[] | e]]; simpl in *.
    + apply keeps_trans with w1; [assumption | apply IH].
    + assumption.
Qed.

Lemma visit_dir_keeps (g : FlashcardGenerator) (root : string)
    (dirs files : list string) (w : world) :
  keeps w (fst (visit_dir g false root dirs files w)).
Proof.
  unfold visit_dir. destruct (startswith root (output_dir g)).
  - apply keeps_refl.
  - apply visit_files_keeps.
Qed.
End TraversalProperties.

(** What every turn of the loop body maintains, the whole walk maintains. *)
Section WalkInvariant.
Variable R : world -> world -> Prop.
Hypothesis R_refl : forall w, R w w.
Hypothesis R_trans : forall a b c, R a b -> R b c -> R a c.
Variable body : string -> list string -> list string -> io unit.
Hypothesis body_R : forall root dirs files w, R w (fst (body root dirs files w)).

Lemma each_dir_invariant (descend : string -> world -> world * option (result unit)) :
  (forall sub w, R w (fst (descend sub w))) ->
  forall top dirs w, R w (fst (each_dir descend top dirs w)).
Proof.
  intros Hd top dirs. induction dirs as [| d rest IH]; intros w; simpl.
  - apply R_refl.
  - pose proof (Hd (join top d) w) as H1.
    destruct (descend (join top d) w) as [w1 [[[] | e] |]]; simpl in H1.
    + apply R_trans with w1; [assumption | apply IH].
    + assumption.
    + assumption.
Qed.

Lemma walk_for_invariant (fuel : nat) :
  forall top w, R w (fst (walk_for fuel top body w)).
Proof.
  induction fuel as [| fuel IH]; intros top w; simpl.
  - apply R_refl.
  - destruct (scandir top w) as [[dirs files] |].
    + pose proof (body_R top dirs files w) as Hb.
      destruct (body top dirs files w) as [w1 [[] | e]]; simpl in Hb.
      * apply R_trans with w1; [assumption |].
        apply each_dir_invariant. intros sub v. apply IH.
      * assumption.
    + apply R_refl.
Qed.
End WalkInvariant.

(** More fuel changes nothing once the walk has come to its end. *)
Lemma each_dir_more (descend descend' : string -> world -> world * option (result unit)) :
  (forall sub w w' r, descend sub w = (w', Some r) -> descend' sub w = (w', Some r)) ->
  forall top dirs w w' r,
    each_dir descend top dirs w = (w', Some r) ->
    each_dir descend' top dirs w = (w', Some r).
Proof.
  intros Hd top dirs. induction dirs as [| d rest IH]; intros w w' r; simpl.
  - trivial.
  - destruct (descend (join top d) w) as [w1 [r1 |]] eqn:H1.
    + rewrite (Hd _ _ _ _ H1). destruct r1; [apply IH | trivial].
    + discriminate.
Qed.

Lemma walk_for_more_fuel (body : string -> list string -> list string -> io unit)
    (fuel extra : nat) :
  forall top w w' r,
    walk_for fuel top body w = (w', Some r) ->
    walk_for (fuel + extra) top body w = (w', Some r).
Proof.
  induction fuel as [| fuel IH]; intros top w w' r; simpl.
  - discriminate.
  - destruct (scandir top w) as [[dirs files] |]; [| trivial].
    destruct (body top dirs files w) as [w1 [[] | e]]; [| trivial].
    apply each_dir_more. intros sub v v' r'. apply IH.
Qed.

Lemma init_notes_generator :
  init (fun _ => Ok (constant_client REPLY_PARIS)) None (Some "sk-sample")
    (PStr "gpt-4-turbo") None None notes_world =
  (notes_world, Ok notes_generator).
Proof. reflexivity. Qed.

Section SkipProperties.
Context {rt : PyRuntime}.

(** A note whose output path exists is skipped when [overwrite_files] is
    false: the body of the file loop does what [makedirs] does and nothing
    else. *)
Lemma visit_file_existing (g : FlashcardGenerator) (root file rel : string) (w : world) :
  endswith file ".md" = true ->
  relpath (cwd w) (join root file) (input_dir g) = Ok rel ->
  exists_in w (join (output_dir g) rel) = true ->
  visit_file g false root file w = makedirs (dirname (join (output_dir g) rel)) w.
Proof.
  intros Hmd Hrel Hex.
  rewrite (visit_file_note g false root file rel w Hmd Hrel). cbv zeta.
  set (out := join (output_dir g) rel) in *.
  pose proof (makedirs_keeps (dirname out) w) as [Hc Hk].
  destruct (makedirs (dirname out) w) as [w1 [[] | e]]; simpl in *; [| reflexivity].
  assert (He : exists_in w1 out = true).
  { unfold exists_in, node_at, resolve in *. rewrite Hc.
    destruct (String.eqb out ""); [discriminate |].
    destruct (lookup (abs_comps (cwd w) out) (fs w)) as [n |] eqn:Hn; [| discriminate].
    destruct (Hk _ _ Hn) as (n' & -> & _). reflexivity. }
  now rewrite He.
Qed.

(** With [overwrite_files] false, a run changes no file that exists,
    however far the fuel lets it go. *)
Lemma process_files_keeps (fuel : nat) (g : FlashcardGenerator) (w : world) :
  keeps w (fst (process_files fuel g false w)).
Proof.
  unfold process_files.
  apply (walk_for_invariant keeps keeps_refl keeps_trans).
  intros root dirs files v. apply visit_dir_keeps.
Qed.
End SkipProperties.

(** The run of the example, with fuel 3 or more: two notes are sent to the
    collaborator, and the note under [flashcards] is neither sent nor
    changed. *)
Lemma process_files_notes_run :
  exists w',
    (forall extra,
        process_files (rt := sample_runtime) (3 + extra) notes_generator false notes_world
          = (w', Some (Ok tt))) /\
    calls w' = [user_message "Paris is the capital of France.";
                user_message "France has a capital."] /\
    node_at w' "/notes/flashcards/old.md" = Some (File "kept") /\
    exists_in w' "/notes/flashcards/a.md" = true /\
    exists_in w' "/notes/flashcards/sub/b.md" = true /\
    exists_in w' "/notes/flashcards/flashcards/old.md" = false.
Proof.
  eexists. split.
  - intros extra. unfold process_files. apply (walk_for_more_fuel _ 3 extra).
    vm_compute. reflexivity.
  - repeat split.
Qed.

(** Every directory whose path string continues the string [output_dir] is
    skipped by the body of the walk. *)
Lemma visit_dir_below_output (rt : PyRuntime) (g : FlashcardGenerator)
    (overwrite_files : bool) (suffix : string) (dirs files : list string) (w : world) :
  visit_dir g overwrite_files (output_dir g ++ suffix) dirs files w = (w, Ok tt).
Proof.
  unfold visit_dir, startswith.
  assert (H : String.prefix (output_dir g) (output_dir g ++ suffix) = true).
  { induction (output_dir g) as [| c d IH]; simpl.
    - now destruct suffix.
    - destruct (Ascii.ascii_dec c c); [exact IH | congruence]. }
  now rewrite H.
Qed.

(** C2: with [overwrite_files] false, a note whose computed output path
    exists is skipped: the body of the file loop does only what [makedirs]
    does, so no call is made to the collaborator and every file keeps its
    contents; over a whole run no file that exists is changed; and in the
    tree [a.md], [sub/b.md], [flashcards/old.md] the run makes exactly two
    calls, for [a.md] and [sub/b.md], and leaves [flashcards/old.md] as it
    was. *)
Theorem existing_output_is_skipped :
  (forall (rt : PyRuntime) (g : FlashcardGenerator) (root file rel : string) (w : world),
      endswith file ".md" = true ->
      relpath (cwd w) (join root file) (input_dir g) = Ok rel ->
      exists_in w (join (output_dir g) rel) = true ->
      let w' := fst (visit_file g false root file w) in
      visit_file g false root file w = makedirs (dirname (join (output_dir g) rel)) w /\
      calls w' = calls w /\
      forall p data, node_at w p = Some (File data) -> node_at w' p = Some (File data)) /\
  (forall (rt : PyRuntime) (fuel : nat) (g : FlashcardGenerator) (w : world)
          (p data : string),
      node_at w p = Some (File data) ->
      node_at (fst (process_files fuel g false w)) p = Some (File data)) /\
  (exists w',
      (forall extra,
          process_files (rt := sample_runtime) (3 + extra) notes_generator false notes_world
            = (w', Some (Ok tt))) /\
      calls w' = [user_message "Paris is the capital of France.";
                  user_message "France has a capital."] /\
      List.length (calls w') = 2 /\
      node_at w' "/notes/flashcards/old.md" = node_at notes_world "/notes/flashcards/old.md" /\
      exists_in w' "/notes/flashcards/flashcards/old.md" = false).
Proof.
  split; [| split].
  - intros rt g root file rel w Hmd Hrel Hex w'. subst w'.
    rewrite (visit_file_existing g root file rel w Hmd Hrel Hex).
    split; [reflexivity | split].
    + apply makedirs_calls.
    + intros p data. apply keeps_file. apply makedirs_keeps.
  - intros rt fuel g w p data. apply keeps_file. apply process_files_keeps.
  - destruct process_files_notes_run as (w' & Hrun & Hcalls & Hold & _ & _ & Hnew).
    exists w'. split; [assumption | split; [assumption | split; [| split]]].
    + now rewrite Hcalls.
    + now rewrite Hold.
    + assumption.
Qed.

Lemma existing_output_is_skipped_witness :
  endswith "a.md" ".md" = true /\
  relpath (cwd rerun_world) (join "/notes" "a.md") (input_dir notes_generator) = Ok "a.md" /\
  exists_in rerun_world (join (output_dir notes_generator) "a.md") = true /\
  calls (fst (visit_file (rt := sample_runtime) notes_generator false "/notes" "a.md"
                rerun_world)) = calls rerun_world /\
  node_at notes_world "/notes/sub/b.md" = Some (File "France has a capital.") /\
  node_at (fst (process_files (rt := sample_runtime) 3 notes_generator false notes_world))
    "/notes/sub/b.md" = Some (File "France has a capital.").
Proof.
  destruct existing_output_is_skipped as (Hstep & Hrun & _).
  split; [reflexivity | split; [reflexivity | split; [reflexivity | split; [| split]]]].
  - apply (Hstep sample_runtime notes_generator "/notes" "a.md" "a.md" rerun_world);
      reflexivity.
  - reflexivity.
  - apply (Hrun sample_runtime 3 notes_generator notes_world). reflexivity.
Defined.

(** C1: the walk skips a directory when the string [root] begins with the
    string [output_dir].  In the tree [a.md], [flashcards_archive/x.md] the
    directory [/notes/flashcards_archive] is not a sub-path of the output
    directory [/notes/flashcards], yet it is skipped: the run makes one call,
    for [a.md], and the note [x.md] gets no output. *)
Theorem sibling_directory_is_skipped :
  is_subpath "/notes" "/notes/flashcards_archive" (output_dir notes_generator) = false /\
  startswith "/notes/flashcards_archive" (output_dir notes_generator) = true /\
  endswith "x.md" ".md" = true /\
  visit_dir (rt := sample_runtime) notes_generator false "/notes/flashcards_archive"
    [] ["x.md"] archive_world = (archive_world, Ok tt) /\
  exists w',
    (forall extra,
        process_files (rt := sample_runtime) (2 + extra) notes_generator false archive_world
          = (w', Some (Ok tt))) /\
    calls w' = [user_message "Paris is the capital of France."] /\
    exists_in w' "/notes/flashcards/a.md" = true /\
    exists_in w' "/notes/flashcards/flashcards_archive/x.md" = false.
Proof.
  split; [reflexivity | split; [reflexivity | split; [reflexivity | split; [reflexivity |]]]].
  eexists. split.
  - intros extra. unfold process_files. apply (walk_for_more_fuel _ 2 extra).
    vm_compute. reflexivity.
  - repeat split.
Qed.

(** C3, as stated, fails: the reply [{"cards": [5]}] decodes to a list
    holding a number, which the validator rejects, and [create_flashcard]
    returns it. *)
Lemma create_flashcard_returns_rejected_cards :
  let g := {| client := constant_client REPLY_NUMBER; model := "gpt-4-turbo";
              input_dir := "/notes"; output_dir := "/notes/flashcards" |} in
  json_loads (PyRuntime := sample_runtime) REPLY_NUMBER
    = Ok (PDict [("cards", PList [PInt 5])]) /\
  validate_flashcards (PList [PInt 5]) = Raise (ValueError MSG_NOT_DICT) /\
  snd (create_flashcard (rt := sample_runtime) g "Five." notes_world) = Ok (PList [PInt 5]).
Proof. repeat split. Qed.

(** C3, amended: [create_flashcard] applies no shape check.  When the
    collaborator replies and the reply decodes to a record with a [cards]
    entry, that entry is returned unchanged if it is a list, a record or a
    string, whether or not it meets the shape contract; otherwise (null, a
    boolean, a number) taking its length raises a [TypeError]. *)
Theorem create_flashcard_applies_no_shape_check (rt : PyRuntime)
    (g : FlashcardGenerator) (text : string) (w : world)
    (reply : response) (decoded cards : pyval) :
  client g (calls w) (user_message text) = Ok reply ->
  json_loads (message_content reply) = Ok decoded ->
  py_getitem decoded "cards" = Ok cards ->
  snd (create_flashcard g text w) =
    (if is_list cards || is_dict cards || is_str cards then Ok cards else Raise TypeError) /\
  calls (fst (create_flashcard g text w)) = (calls w ++ [user_message text])%list.
Proof.
  intros Hc Hj Hg. unfold create_flashcard, io_bind, chat, lift.
  rewrite Hc, Hj. simpl. rewrite Hg. simpl.
  split; [| reflexivity]. now destruct cards.
Qed.

Lemma create_flashcard_applies_no_shape_check_witness :
  client notes_generator (calls notes_world) (user_message "Paris is the capital of France.")
    = Ok {| message_content := REPLY_PARIS; total_tokens := 64 |} /\
  json_loads (PyRuntime := sample_runtime) REPLY_PARIS = Ok (PDict [("cards", PARIS_CARDS)]) /\
  py_getitem (PDict [("cards", PARIS_CARDS)]) "cards" = Ok PARIS_CARDS /\
  snd (create_flashcard (rt := sample_runtime) notes_generator
         "Paris is the capital of France." notes_world) = Ok PARIS_CARDS.
Proof.
  split; [reflexivity | split; [reflexivity | split; [reflexivity |]]].
  apply (create_flashcard_applies_no_shape_check sample_runtime notes_generator
           "Paris is the capital of France." notes_world
           {| message_content := REPLY_PARIS; total_tokens := 64 |}
           (PDict [("cards", PARIS_CARDS)]) PARIS_CARDS);
    reflexivity.
Defined.

Lemma format_rejects_other_styles_witness :
  "anki" <> OBSIDIAN /\
  format_flashcards (rt := sample_runtime) PARIS_CARDS "anki" true =
  Raise (ValueError "Invalid format type: anki").
Proof.
  assert (H : "anki" <> OBSIDIAN) by (unfold OBSIDIAN; discriminate).
  split; [exact H |].
  exact (format_rejects_other_styles (rt := sample_runtime) PARIS_CARDS "anki" true H).
Defined.

Lemma format_without_complete_records_witness :
  format_flashcards (rt := sample_runtime)
    (PList (map PDict [[("front", PStr "Only a front")]; [("back", PStr "Only a back")]; []]))
    OBSIDIAN true = Ok ("#flashcards" ++ LF ++ LF) /\
  format_flashcards (rt := sample_runtime) (PList (map PDict [])) OBSIDIAN false = Ok "".
Proof.
  split.
  - apply (format_without_complete_records (rt := sample_runtime)
             [[("front", PStr "Only a front")]; [("back", PStr "Only a back")]; []] true).
    constructor; [right; reflexivity |].
    constructor; [left; reflexivity |].
    constructor; [left; reflexivity | constructor].
  - apply (format_without_complete_records (rt := sample_runtime) [] false).
    constructor.
Defined.

Lemma format_renders_any_values_witness :
  format_flashcards (rt := sample_runtime)
    (PList (map PDict ([[("front", PStr "Only a front")]] ++
                       [("front", PNone); ("back", PList [PStr "a"; PBool true])] :: [])))
    OBSIDIAN false =
  Ok ("None" ++ LF ++ "?" ++ LF ++ "['a', True]" ++ LF ++ LF).
Proof.
  apply (format_renders_any_values (rt := sample_runtime)
           [[("front", PStr "Only a front")]] []
           [("front", PNone); ("back", PList [PStr "a"; PBool true])]
           PNone (PList [PStr "a"; PBool true]) false eq_refl eq_refl).
Defined.

(** ** Further properties of the formatter and the validator *)

Section FormatComposition.
Context {rt : PyRuntime}.

(** The loop of the formatter only ever appends to what it was given. *)
Lemma format_card_from (output : string) (card : pyval) :
  format_card output card = (s <- format_card "" card ;; Ok (output ++ s)).
Proof.
  unfold format_card.
  destruct (py_contains "front" card) as [[|] | e]; simpl; try reflexivity.
  - destruct (py_contains "back" card) as [[|] | e]; simpl; try reflexivity.
    + destruct (py_getitem card "front") as [f | e]; simpl; [| reflexivity].
      destruct (py_getitem card "back") as [b | e]; simpl; reflexivity.
    + now rewrite str_app_nil_r.
  - now rewrite str_app_nil_r.
Qed.

Lemma format_cards_from (cards : list pyval) (output : string) :
  format_cards output cards = (s <- format_cards "" cards ;; Ok (output ++ s)).
Proof.
  revert output. induction cards as [| card rest IH]; intros output; simpl.
  - now rewrite str_app_nil_r.
  - rewrite (format_card_from output card).
    destruct (format_card "" card) as [s |]; simpl; [| reflexivity].
    rewrite (IH (output ++ s)), (IH s).
    destruct (format_cards "" rest) as [s' |]; simpl; [| reflexivity].
    now rewrite str_app_assoc.
Qed.

Lemma format_cards_app (xs ys : list pyval) :
  format_cards "" (xs ++ ys) =
  (a <- format_cards "" xs ;; b <- format_cards "" ys ;; Ok (a ++ b)).
Proof.
  induction xs as [| x xs IH]; simpl.
  - now destruct (format_cards "" ys).
  - destruct (format_card "" x) as [s |]; simpl; [| reflexivity].
    rewrite (format_cards_from (xs ++ ys) s), (format_cards_from xs s), IH.
    destruct (format_cards "" xs) as [a |]; simpl; [| reflexivity].
    destruct (format_cards "" ys) as [b |]; simpl; [| reflexivity].
    now rewrite str_app_assoc.
Qed.

(** X1: for every payload, formatting with the tag gives the tag line
    followed by what formatting without the tag gives, and raises what
    formatting without the tag raises. *)
Theorem format_tag_is_a_prefix (flashcards : pyval) :
  format_flashcards flashcards OBSIDIAN true =
  (s <- format_flashcards flashcards OBSIDIAN false ;; Ok (TAG_LINE ++ s)).
Proof.
  unfold format_flashcards. rewrite String.eqb_refl.
  destruct (py_iter flashcards) as [cards |]; simpl; [| reflexivity].
  rewrite (format_cards_from cards TAG_LINE).
  now destruct (format_cards "" cards).
Qed.

Lemma format_cards_app_from (xs ys : list pyval) (output : string) :
  format_cards output (xs ++ ys) =
  (a <- format_cards output xs ;; b <- format_cards "" ys ;; Ok (a ++ b)).
Proof.
  rewrite (format_cards_from (xs ++ ys) output), (format_cards_from xs output).
  rewrite format_cards_app.
  destruct (format_cards "" xs) as [a |]; simpl; [| reflexivity].
  destruct (format_cards "" ys) as [b |]; simpl; [| reflexivity].
  now rewrite str_app_assoc.
Qed.

(** X2: formatting a list that is two lists put together gives the text of
    the first followed by the untagged text of the second; an exception of
    the first part comes before one of the second. *)
Theorem format_concatenation (xs ys : list pyval) (include_tag : bool) :
  format_flashcards (PList (xs ++ ys)) OBSIDIAN include_tag =
  (a <- format_flashcards (PList xs) OBSIDIAN include_tag ;;
   b <- format_flashcards (PList ys) OBSIDIAN false ;;
   Ok (a ++ b)).
Proof.
  unfold format_flashcards. rewrite String.eqb_refl. simpl py_iter. simpl bind.
  destruct include_tag; apply format_cards_app_from.
Qed.

(** A one-character string holds neither key. *)
Lemma format_card_character (output : string) (c : ascii) :
  format_card output (PStr (String c EmptyString)) = Ok output.
Proof.
  unfold format_card. simpl py_contains.
  assert (H : str_contains "front" (String c EmptyString) = false).
  { unfold str_contains. simpl. destruct c as [[] [] [] [] [] [] [] []]; reflexivity. }
  now rewrite H.
Qed.

Lemma format_cards_characters (s : string) (output : string) :
  format_cards output
    (map (fun c => PStr (String c EmptyString)) (list_ascii_of_string s)) = Ok output.
Proof.
  revert output. induction s as [| c s IH]; intros output; simpl.
  - reflexivity.
  - rewrite format_card_character. simpl. apply IH.
Qed.

(** X3: a payload that is a string is taken character by character and
    renders no card; a payload that is null, a boolean or a number cannot be
    iterated and raises a [TypeError]. *)
Theorem format_payload_not_a_container (include_tag : bool) :
  (forall s, format_flashcards (PStr s) OBSIDIAN include_tag =
             Ok (if include_tag then TAG_LINE else "")) /\
  format_flashcards PNone OBSIDIAN include_tag = Raise TypeError /\
  (forall b, format_flashcards (PBool b) OBSIDIAN include_tag = Raise TypeError) /\
  (forall n, format_flashcards (PInt n) OBSIDIAN include_tag = Raise TypeError) /\
  (forall r, format_flashcards (PFloat r) OBSIDIAN include_tag = Raise TypeError).
Proof.
  split; [| now repeat split].
  intros s. unfold format_flashcards. rewrite String.eqb_refl. simpl py_iter. simpl bind.
  rewrite format_cards_characters. now destruct include_tag.
Qed.
End FormatComposition.

(** What the validator accepts is a list of well-formed records. *)
Lemma validate_flashcards_shape (flashcards : pyval) :
  validate_flashcards flashcards = Ok tt -> shape_ok flashcards.
Proof.
  destruct flashcards as [| b | n | r | s | cards | items]; try discriminate.
  unfold validate_flashcards; simpl. intros H.
  exists cards. split; [reflexivity | now apply validate_cards_ok].
Qed.

Section FormatPayloads.
Context {rt : PyRuntime}.

Lemma format_cards_keys (items : list (string * pyval)) (output : string) :
  format_cards output (map (fun kv => PStr (fst kv)) items) =
  if existsb key_holds_both items then Raise TypeError else Ok output.
Proof.
  revert output. induction items as [| [k x] rest IH]; intros output; simpl.
  - reflexivity.
  - unfold format_card, key_holds_both at 1. simpl.
    destruct (str_contains "front" k); simpl; [| apply IH].
    destruct (str_contains "back" k); simpl; [reflexivity | apply IH].
Qed.

(** X4: a payload that is one record instead of a list of records is
    iterated over its keys, which are strings: no card is rendered and the
    result is the tag line alone, unless some key holds both [front] and
    [back] as substrings, in which case indexing that key raises a
    [TypeError]. *)
Theorem format_record_payload (items : list (string * pyval)) (include_tag : bool) :
  format_flashcards (PDict items) OBSIDIAN include_tag =
  if existsb key_holds_both items then Raise TypeError
  else Ok (if include_tag then TAG_LINE else "").
Proof.
  unfold format_flashcards. rewrite String.eqb_refl. simpl py_iter. simpl bind.
  rewrite format_cards_keys. now destruct include_tag.
Qed.

(** X5: a payload the validator accepts is formatted without error and with
    no card dropped: there is one pair of strings for each element, the
    front and back of that element, and the output is the tag line (when
    asked for) followed by the texts of these pairs in order. *)
Theorem validated_payload_is_rendered_in_full (flashcards : pyval) :
  validate_flashcards flashcards = Ok tt ->
  exists cards pairs,
    flashcards = PList cards /\
    Forall2 card_of_pair cards pairs /\
    forall include_tag,
      format_flashcards flashcards OBSIDIAN include_tag =
      Ok ((if include_tag then TAG_LINE else "") ++ String.concat "" (map pair_text pairs)).
Proof.
  intros H. apply validate_flashcards_shape in H. destruct H as (cards & -> & Hall).
  exists cards.
  assert (Hp : exists pairs, Forall2 card_of_pair cards pairs /\
                 forall output, format_cards output cards =
                                Ok (output ++ String.concat "" (map pair_text pairs))).
  { induction Hall as [| card rest (items & f & b & -> & Hf & Hb) _ (pairs & Hpairs & Hfmt)].
    - exists []. split; [constructor |]. intros output. simpl. now rewrite str_app_nil_r.
    - exists ((f, b) :: pairs). split.
      + constructor; [now exists items | assumption].
      + intros output.
        assert (Ht : record_text items = pair_text (f, b)).
        { unfold record_text, pair_text. now rewrite Hf, Hb. }
        change (format_cards output (PDict items :: rest))
          with (output' <- format_card output (PDict items) ;; format_cards output' rest).
        rewrite format_card_record, Ht. simpl bind. rewrite Hfmt.
        change (map pair_text ((f, b) :: pairs))
          with (pair_text (f, b) :: map pair_text pairs).
        now rewrite concat_cons, str_app_assoc. }
  destruct Hp as (pairs & Hpairs & Hfmt). exists pairs.
  split; [reflexivity | split; [assumption |]].
  intros include_tag. unfold format_flashcards. rewrite String.eqb_refl.
  simpl py_iter. simpl bind. rewrite Hfmt. now destruct include_tag.
Qed.
End FormatPayloads.

Lemma validate_cards_app (xs ys : list pyval) :
  validate_cards (xs ++ ys) = (validate_cards xs ;;; validate_cards ys).
Proof.
  induction xs as [| x xs IH]; simpl.
  - reflexivity.
  - destruct (validate_card x) as [[] |]; simpl; [exact IH | reflexivity].
Qed.

(** X6: validating a list that is two lists put together validates the first
    and then the second: it passes when both pass, and otherwise raises what
    the first raises or, if the first passes, what the second raises. *)
Theorem validate_concatenation (xs ys : list pyval) :
  validate_flashcards (PList (xs ++ ys)) =
  (validate_flashcards (PList xs) ;;; validate_flashcards (PList ys)).
Proof. unfold validate_flashcards. simpl. apply validate_cards_app. Qed.

(** ** Further properties of [create_flashcard] and [process_file] *)

(** What [write_node] writes is there afterwards. *)
Lemma write_node_lookup (p : list string) (data : string) (t t' : node) :
  write_node p data t = Ok t' -> lookup p t' = Some (File data).
Proof.
  revert t t'. induction p as [| c rest IH]; intros t t'; simpl.
  - destruct t as [d | es]; [| discriminate]. now intros [= <-].
  - destruct t as [d | es]; [discriminate |].
    destruct (find_entry c es) as [m |] eqn:Hc.
    + destruct (write_node rest data m) as [m' |] eqn:Hm; simpl; [| discriminate].
      intros [= <-]. simpl. rewrite find_entry_set_same by congruence. now apply (IH m).
    + destruct rest as [| c2 rest']; [| discriminate].
      intros [= <-]. simpl. now rewrite (find_entry_app_new _ _ _ Hc).
Qed.

Lemma write_text_written (p data : string) (w : world) :
  snd (write_text p data w) = Ok tt ->
  node_at (fst (write_text p data w)) p = Some (File data).
Proof.
  unfold write_text, node_at. destruct (resolve w p) as [comps |] eqn:Hr; [| discriminate].
  destruct (write_node comps data (fs w)) as [t |] eqn:H; [| discriminate].
  intros _. simpl. unfold resolve in *. simpl.
  destruct (String.eqb p ""); [discriminate |]. injection Hr as <-.
  now apply write_node_lookup with (fs w).
Qed.


Lemma write_text_log (p data : string) (w : world) :
  calls (fst (write_text p data w)) = calls w /\
  stdout (fst (write_text p data w)) = stdout w /\
  cwd (fst (write_text p data w)) = cwd w.
Proof.
  unfold write_text. destruct (resolve w p) as [comps |]; [| now repeat split].
  destruct (write_node comps data (fs w)); now repeat split.
Qed.

Lemma read_text_file (inp : string) (w : world) :
  read_text inp w =
  (w, match node_at w inp with
      | Some (File data) => Ok data
      | Some (Dir _) => Raise IsADirectoryError
      | None => Raise (open_error w inp)
      end).
Proof. unfold read_text. now destruct (node_at w inp) as [[d | es] |]. Qed.

Section ProcessFile.
Context {rt : PyRuntime}.

(** The world [create_flashcard] leaves: the call is logged, whatever the
    outcome, and nothing else changes. *)
Lemma create_flashcard_world (g : FlashcardGenerator) (text : string) (w : world) :
  fst (create_flashcard g text w) =
  {| fs := fs w; cwd := cwd w; calls := calls w ++ [user_message text];
     stdout := stdout w |}.
Proof.
  unfold create_flashcard, io_bind, chat, lift.
  now destruct (client g (calls w) (user_message text)).
Qed.

(** X7: [create_flashcard] sends exactly one message to the collaborator,
    whatever the outcome, and touches no file.  An exception of the
    collaborator or of the decoder is passed on; a reply that decodes to
    something other than a record raises a [TypeError]; a reply that decodes
    to a record without a [cards] entry raises [KeyError] for [cards]. *)
Theorem create_flashcard_failures (g : FlashcardGenerator) (text : string) (w : world) :
  calls (fst (create_flashcard g text w)) = (calls w ++ [user_message text])%list /\
  fs (fst (create_flashcard g text w)) = fs w /\
  (forall e, client g (calls w) (user_message text) = Raise e ->
             snd (create_flashcard g text w) = Raise e) /\
  (forall reply e,
      client g (calls w) (user_message text) = Ok reply ->
      json_loads (message_content reply) = Raise e ->
      snd (create_flashcard g text w) = Raise e) /\
  (forall reply decoded,
      client g (calls w) (user_message text) = Ok reply ->
      json_loads (message_content reply) = Ok decoded ->
      is_dict decoded = false ->
      snd (create_flashcard g text w) = Raise TypeError) /\
  (forall reply items,
      client g (calls w) (user_message text) = Ok reply ->
      json_loads (message_content reply) = Ok (PDict items) ->
      dict_get "cards" items = None ->
      snd (create_flashcard g text w) = Raise (KeyError "cards")).
Proof.
  rewrite create_flashcard_world. simpl.
  split; [reflexivity | split; [reflexivity |]].
  unfold create_flashcard, io_bind, chat, lift.
  split; [| split; [| split]].
  - intros e ->. reflexivity.
  - intros reply e -> Hj. simpl. now rewrite Hj.
  - intros reply decoded -> Hj Hd. simpl. rewrite Hj. simpl.
    now destruct decoded.
  - intros reply items -> Hj Hc. simpl. rewrite Hj. simpl. now rewrite Hc.
Qed.

(** A tagged output begins with the tag line. *)
Lemma format_flashcards_tagged (flashcards : pyval) (text : string) :
  format_flashcards flashcards OBSIDIAN true = Ok text ->
  exists body, text = TAG_LINE ++ body.
Proof.
  unfold format_flashcards. rewrite String.eqb_refl.
  destruct (py_iter flashcards) as [cards |]; simpl; [| discriminate].
  rewrite (format_cards_from cards TAG_LINE).
  destruct (format_cards "" cards) as [s |]; simpl; [| discriminate].
  intros [= <-]. now exists s.
Qed.

(** The course of [process_file] when it returns. *)
Lemma process_file_returns (g : FlashcardGenerator) (inp out : string)
    (print_output : bool) (w w' : world) :
  process_file g inp out print_output w = (w', Ok tt) ->
  exists content cards text,
    node_at w inp = Some (File content) /\
    snd (create_flashcard g content w) = Ok cards /\
    format_flashcards cards OBSIDIAN true = Ok text /\
    (if print_output then print text else write_text out text)
      (fst (create_flashcard g content w)) = (w', Ok tt).
Proof.
  unfold process_file, io_bind. rewrite read_text_file.
  destruct (node_at w inp) as [[content | es] |]; try discriminate.
  destruct (create_flashcard g content w) as [w1 [cards | e]] eqn:Hc; [| discriminate].
  unfold lift. destruct (format_flashcards cards OBSIDIAN true) as [text | e] eqn:Hf;
    [| discriminate].
  intros H. exists content, cards, text. rewrite Hc. simpl.
  split; [reflexivity | split; [reflexivity | split; [assumption | exact H]]].
Qed.

(** X8: when [process_file] returns in write mode, the note was a readable
    file, exactly one message (the one built from its contents) was sent,
    and the output path now holds the cards of the reply formatted in the
    recognised style, beginning with the tag line. *)
Theorem process_file_writes_the_formatted_reply (g : FlashcardGenerator)
    (inp out : string) (w w' : world) :
  process_file g inp out false w = (w', Ok tt) ->
  exists content cards body,
    node_at w inp = Some (File content) /\
    snd (create_flashcard g content w) = Ok cards /\
    format_flashcards cards OBSIDIAN true = Ok (TAG_LINE ++ body) /\
    node_at w' out = Some (File (TAG_LINE ++ body)) /\
    calls w' = (calls w ++ [user_message content])%list.
Proof.
  intros H. apply process_file_returns in H.
  destruct H as (content & cards & text & Hin & Hc & Hf & Hw).
  destruct (format_flashcards_tagged _ _ Hf) as [body ->].
  exists content, cards, body. split; [assumption | split; [assumption | split; [assumption |]]].
  set (w1 := fst (create_flashcard g content w)) in *.
  pose proof (write_text_written out (TAG_LINE ++ body) w1) as Hwritten.
  pose proof (write_text_log out (TAG_LINE ++ body) w1) as (Hcalls & _ & _).
  rewrite Hw in Hwritten, Hcalls. simpl in Hwritten, Hcalls.
  split; [now apply Hwritten |].
  rewrite Hcalls. unfold w1. now rewrite create_flashcard_world.
Qed.





(** X11: in print mode [process_file] writes no file and does not look at
    the output path; when it returns, the formatted cards are what was added
    to the standard output. *)
Theorem process_file_print_mode (g : FlashcardGenerator) (inp out : string) (w : world) :
  fs (fst (process_file g inp out true w)) = fs w /\
  (forall other, process_file g inp other true w = process_file g inp out true w) /\
  (forall w', process_file g inp out true w = (w', Ok tt) ->
     exists content cards text,
       node_at w inp = Some (File content) /\
       snd (create_flashcard g content w) = Ok cards /\
       format_flashcards cards OBSIDIAN true = Ok text /\
       stdout w' = (stdout w ++ [text])%list).
Proof.
  split; [| split].
  - unfold process_file, io_bind. rewrite read_text_file.
    destruct (node_at w inp) as [[content | es] |]; try reflexivity.
    pose proof (create_flashcard_world g content w) as Hw1.
    destruct (create_flashcard g content w) as [w1 [cards | e1]]; simpl in Hw1; subst w1;
      [| reflexivity].
    unfold lift. now destruct (format_flashcards cards OBSIDIAN true).
  - reflexivity.
  - intros w' H. apply process_file_returns in H.
    destruct H as (content & cards & text & Hin & Hc & Hf & Hp).
    exists content, cards, text. repeat split; try assumption.
    rewrite create_flashcard_world in Hp. unfold print in Hp. simpl in Hp.
    now injection Hp as <-.
Qed.
End ProcessFile.

(** ** Further properties of the traversal *)

Lemma outlasts_refl (w : world) : outlasts w w.
Proof.
  split; [reflexivity | split; [reflexivity | split]].
  - exists []. now rewrite app_nil_r.
  - intros q n H. now exists n.
Qed.

Lemma outlasts_trans (a b c : world) : outlasts a b -> outlasts b c -> outlasts a c.
Proof.
  intros (Hc1 & Ho1 & [s1 Hs1] & H1) (Hc2 & Ho2 & [s2 Hs2] & H2).
  split; [congruence | split; [congruence | split]].
  - exists (s1 ++ s2)%list. now rewrite Hs2, Hs1, app_assoc.
  - intros q n Hq. destruct (H1 q n Hq) as (n1 & Hq1 & Hk1).
    destruct (H2 q n1 Hq1) as (n2 & Hq2 & Hk2). exists n2. split; [assumption | congruence].
Qed.

Lemma continues_kind (n n' : node) : continues n n' -> is_dir_node n' = is_dir_node n.
Proof. destruct n as [d | es]; simpl; [now intros -> | trivial]. Qed.

Lemma makedirs_outlasts (p : string) (w : world) : outlasts w (fst (makedirs p w)).
Proof.
  destruct (makedirs_keeps p w) as [Hc Hk].
  split; [assumption | split; [| split]].
  - unfold makedirs. destruct (resolve w p) as [comps |]; [| reflexivity].
    now destruct (mkdirs comps (fs w)).
  - exists []. now rewrite app_nil_r, makedirs_calls.
  - intros q n Hq. destruct (Hk q n Hq) as (n' & Hn' & Hcont).
    exists n'. split; [assumption | now apply continues_kind].
Qed.

(** [write_node] keeps every file a file and every directory a directory. *)
Lemma write_node_kind (p : list string) (data : string) (t t' : node) :
  write_node p data t = Ok t' ->
  forall q n, lookup q t = Some n ->
  exists n', lookup q t' = Some n' /\ is_dir_node n' = is_dir_node n.
Proof.
  intros H q n Hq.
  destruct (write_node_continues _ _ _ _ H q n Hq) as (n' & Hn' & [Hk | ->]).
  - exists n'. split; [assumption | now apply continues_kind].
  - exists n'. split; [assumption |].
    rewrite (write_node_lookup _ _ _ _ H) in Hn'. injection Hn' as <-.
    destruct n as [d | es]; [reflexivity |].
    destruct (write_node_keeps_dirs _ _ _ _ H _ _ Hq) as [es' Hes'].
    rewrite (write_node_lookup _ _ _ _ H) in Hes'. discriminate.
Qed.

Lemma write_text_outlasts (p data : string) (w : world) :
  outlasts w (fst (write_text p data w)).
Proof.
  destruct (write_text_log p data w) as (Hcalls & Hout & Hcwd).
  split; [assumption | split; [assumption | split]].
  - exists []. now rewrite app_nil_r.
  - unfold write_text. destruct (resolve w p) as [comps |]; [| intros q n Hq; now exists n].
    destruct (write_node comps data (fs w)) as [t |] eqn:H; [| intros q n Hq; now exists n].
    simpl. now apply write_node_kind with comps data.
Qed.

Section RunProperties.
Context {rt : PyRuntime}.

Lemma create_flashcard_outlasts (g : FlashcardGenerator) (text : string) (w : world) :
  outlasts w (fst (create_flashcard g text w)).
Proof.
  rewrite create_flashcard_world. split; [reflexivity | split; [reflexivity | split]].
  - now exists [user_message text].
  - intros q n Hq. now exists n.
Qed.

Lemma process_file_outlasts (g : FlashcardGenerator) (inp out : string) (w : world) :
  outlasts w (fst (process_file g inp out false w)).
Proof.
  unfold process_file, io_bind. rewrite read_text_file.
  destruct (node_at w inp) as [[content | es] |]; try apply outlasts_refl.
  pose proof (create_flashcard_outlasts g content w) as Hc.
  destruct (create_flashcard g content w) as [w1 [cards | e1]]; simpl in Hc; [| assumption].
  unfold lift. destruct (format_flashcards cards OBSIDIAN true) as [text | e2]; [| assumption].
  apply outlasts_trans with w1; [assumption | apply write_text_outlasts].
Qed.

Lemma visit_file_outlasts (g : FlashcardGenerator) (overwrite_files : bool)
    (root file : string) (w : world) :
  outlasts w (fst (visit_file g overwrite_files root file w)).
Proof.
  destruct (endswith file ".md") eqn:Hmd;
    [| unfold visit_file; rewrite Hmd; apply outlasts_refl].
  destruct (relpath (cwd w) (join root file) (input_dir g)) as [rel | e] eqn:Hrel.
  - rewrite (visit_file_note g overwrite_files root file rel w Hmd Hrel). cbv zeta.
    set (out := join (output_dir g) rel).
    pose proof (makedirs_outlasts (dirname out) w) as Hk.
    destruct (makedirs (dirname out) w) as [w1 [[] | e]]; simpl in *; [| assumption].
    destruct (exists_in w1 out && negb overwrite_files); [assumption |].
    apply outlasts_trans with w1; [assumption | apply process_file_outlasts].
  - unfold visit_file. rewrite Hmd. unfold io_bind, getcwd, lift. rewrite Hrel.
    apply outlasts_refl.
Qed.

Lemma visit_dir_outlasts (g : FlashcardGenerator) (overwrite_files : bool)
    (root : string) (dirs files : list string) (w : world) :
  outlasts w (fst (visit_dir g overwrite_files root dirs files w)).
Proof.
  unfold visit_dir. destruct (startswith root (output_dir g)); [apply outlasts_refl |].
  revert w. induction files as [| file rest IH]; intros w; simpl.
  - apply outlasts_refl.
  - unfold io_bind. pose proof (visit_file_outlasts g overwrite_files root file w) as Hk.
    destruct (visit_file g overwrite_files root file w) as [w1 [[] | e]]; simpl in *.
    + apply outlasts_trans with w1; [assumption | apply IH].
    + assumption.
Qed.

(** X12: whatever [overwrite_files] is and however the run ends, a run of
    [process_files] removes nothing: every path that named a file still
    names a file and every path that named a directory still names a
    directory; the working directory is the same, nothing is printed, and the
    log of calls has only grown. *)
Theorem process_files_removes_nothing (fuel : nat) (g : FlashcardGenerator)
    (overwrite_files : bool) (w : world) :
  let w' := fst (process_files fuel g overwrite_files w) in
  cwd w' = cwd w /\
  stdout w' = stdout w /\
  (exists sent, calls w' = (calls w ++ sent)%list) /\
  forall p n, node_at w p = Some n ->
              exists n', node_at w' p = Some n' /\ is_dir_node n' = is_dir_node n.
Proof.
  assert (H : outlasts w (fst (process_files fuel g overwrite_files w))).
  { unfold process_files.
    apply (walk_for_invariant outlasts outlasts_refl outlasts_trans).
    intros root dirs files v. apply visit_dir_outlasts. }
  destruct H as (Hc & Ho & Hs & Hn). cbv zeta.
  split; [assumption | split; [assumption | split; [assumption |]]].
  intros p n. unfold node_at, resolve. rewrite Hc.
  destruct (String.eqb p ""); [discriminate | apply Hn].
Qed.
End RunProperties.

(** A tree without notes has none in any of its directories. *)
Lemma has_note_cons (name : string) (x : node) (rest : list (string * node)) :
  has_note (Dir ((name, x) :: rest)) =
  (match x with
   | File _ => endswith name ".md"
   | Dir _ => has_note x
   end || has_note (Dir rest)).
Proof. reflexivity. Qed.

Lemma has_note_files (entries : list (string * node)) :
  has_note (Dir entries) = false ->
  Forall (fun file => endswith file ".md" = false) (file_names entries).
Proof.
  unfold file_names. induction entries as [| [name x] rest IH].
  - constructor.
  - rewrite has_note_cons. intros H. apply orb_false_iff in H. destruct H as [Hx Hr].
    simpl. destruct x as [d | es]; simpl.
    + constructor; [assumption | now apply IH].
    + now apply IH.
Qed.

Lemma has_note_find (entries : list (string * node)) (c : string) (n : node) :
  has_note (Dir entries) = false -> find_entry c entries = Some n -> has_note n = false.
Proof.
  induction entries as [| [name x] rest IH].
  - discriminate.
  - rewrite has_note_cons. intros H. apply orb_false_iff in H. destruct H as [Hx Hr].
    simpl. destruct (String.eqb name c).
    + intros [= <-]. now destruct x.
    + now apply IH.
Qed.

Lemma has_note_lookup (q : list string) (t n : node) :
  has_note t = false -> lookup q t = Some n -> has_note n = false.
Proof.
  revert t. induction q as [| c rest IH]; intros t Ht; simpl.
  - now intros [= <-].
  - destruct t as [d | es]; [discriminate |].
    destruct (find_entry c es) as [m |] eqn:Hc; [| discriminate].
    apply IH. now apply has_note_find with es c.
Qed.

(** The walk as far as its outcome goes: a relation between the worlds that
    may depend on whether an exception was raised. *)
Section WalkOutcome.
Variable R : world -> world -> bool -> Prop.
Hypothesis R_stay : forall w, R w w true.
Hypothesis R_then : forall a b c flag, R a b true -> R b c flag -> R a c flag.
Variable body : string -> list string -> list string -> io unit.
Hypothesis body_R :
  forall root dirs files w,
    R w (fst (body root dirs files w)) (returned (snd (body root dirs files w))).

Lemma each_dir_outcome (descend : string -> world -> world * option (result unit)) :
  (forall sub w, R w (fst (descend sub w)) (not_raised (snd (descend sub w)))) ->
  forall top dirs w,
    R w (fst (each_dir descend top dirs w)) (not_raised (snd (each_dir descend top dirs w))).
Proof.
  intros Hd top dirs. induction dirs as [| d rest IH]; intros w; simpl.
  - apply R_stay.
  - pose proof (Hd (join top d) w) as H1.
    destruct (descend (join top d) w) as [w1 [[[] | e] |]]; simpl in H1.
    + apply R_then with w1; [assumption | apply IH].
    + assumption.
    + assumption.
Qed.

Lemma walk_for_outcome (fuel : nat) :
  forall top w,
    R w (fst (walk_for fuel top body w)) (not_raised (snd (walk_for fuel top body w))).
Proof.
  induction fuel as [| fuel IH]; intros top w; simpl.
  - apply R_stay.
  - destruct (scandir top w) as [[dirs files] |]; [| apply R_stay].
    pose proof (body_R top dirs files w) as Hb.
    destruct (body top dirs files w) as [w1 [[] | e]]; simpl in Hb.
    + apply R_then with w1; [assumption |].
      apply each_dir_outcome. intros sub v. apply IH.
    + assumption.
Qed.
End WalkOutcome.

Section QuietRuns.
Context {rt : PyRuntime}.

Lemma visit_files_plain (g : FlashcardGenerator) (overwrite_files : bool)
    (root : string) (files : list string) (w : world) :
  Forall (fun file => endswith file ".md" = false) files ->
  visit_files g overwrite_files root files w = (w, Ok tt).
Proof.
  intros H. induction H as [| file rest Hf _ IH]; simpl.
  - reflexivity.
  - unfold io_bind, visit_file. rewrite Hf. simpl. exact IH.
Qed.

Lemma each_dir_fixed (descend : string -> world -> world * option (result unit))
    (w : world) :
  (forall sub, fst (descend sub w) = w /\ not_raised (snd (descend sub w)) = true) ->
  forall top dirs,
    fst (each_dir descend top dirs w) = w /\
    not_raised (snd (each_dir descend top dirs w)) = true.
Proof.
  intros Hd top dirs. induction dirs as [| d rest IH]; simpl.
  - now split.
  - destruct (Hd (join top d)) as [H1 H2].
    destruct (descend (join top d) w) as [w1 [[[] | e] |]]; simpl in *; subst.
    + exact IH.
    + discriminate.
    + now split.
Qed.

Lemma walk_for_plain (g : FlashcardGenerator) (overwrite_files : bool) (w : world) :
  has_note (fs w) = false ->
  forall fuel top,
    fst (walk_for fuel top (visit_dir g overwrite_files) w) = w /\
    not_raised (snd (walk_for fuel top (visit_dir g overwrite_files) w)) = true.
Proof.
  intros Hplain fuel. induction fuel as [| fuel IH]; intros top; simpl.
  - now split.
  - unfold scandir, node_at.
    destruct (resolve w top) as [comps |]; [| now split].
    destruct (lookup comps (fs w)) as [[d | entries] |] eqn:Hl; try now split.
    assert (Hfiles : Forall (fun file => endswith file ".md" = false) (file_names entries)).
    { apply has_note_files. now apply has_note_lookup with comps (fs w). }
    assert (Hbody : visit_dir g overwrite_files top (dir_names entries)
                      (file_names entries) w = (w, Ok tt)).
    { unfold visit_dir. destruct (startswith top (output_dir g)); [reflexivity |].
      now apply visit_files_plain. }
    rewrite Hbody. apply each_dir_fixed. intros sub. apply IH.
Qed.

(** X13: in a tree that holds no file whose name ends in [.md], a run of
    [process_files] changes nothing at all (no directory is made, no call is
    sent) and raises nothing. *)
Theorem process_files_without_notes (fuel : nat) (g : FlashcardGenerator)
    (overwrite_files : bool) (w : world) :
  has_note (fs w) = false ->
  fst (process_files fuel g overwrite_files w) = w /\
  not_raised (snd (process_files fuel g overwrite_files w)) = true.
Proof.
  intros Hplain. unfold process_files. now apply walk_for_plain.
Qed.
End QuietRuns.

(** ** The log of calls *)

Lemma answered_weaken (g : FlashcardGenerator) (history sent : list string) (strict : bool) :
  answered g history sent strict -> answered g history sent false.
Proof.
  intros H. induction H as [h b | h m | h m reply rest b Hc _ IH].
  - constructor.
  - constructor.
  - now apply answered_next with reply.
Qed.

Lemma answered_app (g : FlashcardGenerator) (history first second : list string)
    (strict : bool) :
  answered g history first true ->
  answered g (history ++ first) second strict ->
  answered g history (first ++ second) strict.
Proof.
  intros H. remember true as flag eqn:Hflag. revert second.
  induction H as [h b | h m | h m reply rest b Hc _ IH]; intros second H2.
  - now rewrite app_nil_r in H2.
  - discriminate.
  - simpl. apply answered_next with reply; [assumption |].
    apply IH; [assumption |]. now rewrite <- app_assoc.
Qed.

Lemma sends_stay (g : FlashcardGenerator) (w : world) (strict : bool) : sends g w w strict.
Proof. exists []. split; [now rewrite app_nil_r | constructor]. Qed.

Lemma sends_then (g : FlashcardGenerator) (a b c : world) (strict : bool) :
  sends g a b true -> sends g b c strict -> sends g a c strict.
Proof.
  intros (s1 & Hs1 & H1) (s2 & Hs2 & H2). exists (s1 ++ s2)%list. split.
  - now rewrite Hs2, Hs1, app_assoc.
  - apply answered_app; [assumption | now rewrite <- Hs1].
Qed.

Lemma sends_weaken (g : FlashcardGenerator) (a b : world) (strict : bool) :
  sends g a b strict -> sends g a b false.
Proof. intros (s & Hs & H). exists s. split; [assumption | now apply answered_weaken with strict]. Qed.

Lemma sends_same_calls (g : FlashcardGenerator) (a b c : world) (strict : bool) :
  sends g a b strict -> calls c = calls b -> sends g a c strict.
Proof. intros (s & Hs & H) Hc. exists s. split; [congruence | assumption]. Qed.

Section CallLog.
Context {rt : PyRuntime}.

Lemma create_flashcard_sends (g : FlashcardGenerator) (text : string) (w : world) :
  sends g w (fst (create_flashcard g text w)) (returned (snd (create_flashcard g text w))).
Proof.
  exists [user_message text]. rewrite create_flashcard_world. split; [reflexivity |].
  unfold create_flashcard, io_bind, chat, lift.
  destruct (client g (calls w) (user_message text)) as [reply | e] eqn:Hc; simpl.
  - apply answered_next with reply; [assumption | constructor].
  - constructor.
Qed.

Lemma process_file_sends (g : FlashcardGenerator) (inp out : string)
    (print_output : bool) (w : world) :
  sends g w (fst (process_file g inp out print_output w))
    (returned (snd (process_file g inp out print_output w))).
Proof.
  unfold process_file, io_bind. rewrite read_text_file.
  destruct (node_at w inp) as [[content | es] |]; try apply sends_stay.
  pose proof (create_flashcard_sends g content w) as Hc.
  destruct (create_flashcard g content w) as [w1 [cards | e1]]; simpl in Hc; [| assumption].
  unfold lift. destruct (format_flashcards cards OBSIDIAN true) as [text | e2]; simpl.
  - assert (Hw : forall step : io unit,
               calls (fst (step w1)) = calls w1 ->
               sends g w (fst (step w1)) (returned (snd (step w1)))).
    { intros step Hs. apply sends_same_calls with w1; [| assumption].
      destruct (returned (snd (step w1))); [assumption | now apply sends_weaken with true]. }
    destruct print_output; apply Hw.
    + reflexivity.
    + apply write_text_log.
  - now apply sends_weaken with true.
Qed.

Lemma visit_file_sends (g : FlashcardGenerator) (overwrite_files : bool)
    (root file : string) (w : world) :
  sends g w (fst (visit_file g overwrite_files root file w))
    (returned (snd (visit_file g overwrite_files root file w))).
Proof.
  destruct (endswith file ".md") eqn:Hmd;
    [| unfold visit_file; rewrite Hmd; apply sends_stay].
  destruct (relpath (cwd w) (join root file) (input_dir g)) as [rel | e] eqn:Hrel.
  - rewrite (visit_file_note g overwrite_files root file rel w Hmd Hrel). cbv zeta.
    set (out := join (output_dir g) rel).
    pose proof (makedirs_calls (dirname out) w) as Hm.
    destruct (makedirs (dirname out) w) as [w1 [[] | e]]; simpl in *.
    + destruct (exists_in w1 out && negb overwrite_files); simpl.
      * apply sends_same_calls with w; [apply sends_stay | assumption].
      * apply sends_then with w1; [| apply process_file_sends].
        apply sends_same_calls with w; [apply sends_stay | assumption].
    + apply sends_same_calls with w; [apply sends_stay | assumption].
  - unfold visit_file. rewrite Hmd. unfold io_bind, getcwd, lift. rewrite Hrel.
    apply sends_stay.
Qed.

Lemma visit_dir_sends (g : FlashcardGenerator) (overwrite_files : bool)
    (root : string) (dirs files : list string) (w : world) :
  sends g w (fst (visit_dir g overwrite_files root dirs files w))
    (returned (snd (visit_dir g overwrite_files root dirs files w))).
Proof.
  unfold visit_dir. destruct (startswith root (output_dir g)); [apply sends_stay |].
  revert w. induction files as [| file rest IH]; intros w; simpl.
  - apply sends_stay.
  - unfold io_bind. pose proof (visit_file_sends g overwrite_files root file w) as Hk.
    destruct (visit_file g overwrite_files root file w) as [w1 [[] | e]]; simpl in *.
    + apply sends_then with w1; [assumption | apply IH].
    + assumption.
Qed.

Lemma process_files_sends (fuel : nat) (g : FlashcardGenerator)
    (overwrite_files : bool) (w : world) :
  sends g w (fst (process_files fuel g overwrite_files w))
    (not_raised (snd (process_files fuel g overwrite_files w))).
Proof.
  unfold process_files.
  apply (walk_for_outcome (sends g)).
  - intros v. apply sends_stay.
  - intros a b c flag. apply sends_then.
  - intros root dirs files v. apply visit_dir_sends.
Qed.

(** X14: a run stops at the first call that fails.  The messages a run of
    [process_files] sends are all answered by the collaborator, except
    possibly the last one when the run ends with an exception. *)
Theorem process_files_stops_at_first_failure (fuel : nat) (g : FlashcardGenerator)
    (overwrite_files : bool) (w : world) :
  exists sent,
    calls (fst (process_files fuel g overwrite_files w)) = (calls w ++ sent)%list /\
    answered g (calls w) sent (not_raised (snd (process_files fuel g overwrite_files w))).
Proof. exact (process_files_sends fuel g overwrite_files w). Qed.

(** X15: when every call to the collaborator fails, a run of
    [process_files] sends at most one message, and it sends none if it ends
    without an exception. *)
Theorem process_files_failing_collaborator (fuel : nat) (g : FlashcardGenerator)
    (overwrite_files : bool) (w : world) :
  (forall history message, exists e, client g history message = Raise e) ->
  let run := process_files fuel g overwrite_files w in
  (calls (fst run) = calls w \/
   exists message, calls (fst run) = (calls w ++ [message])%list /\
                   not_raised (snd run) = false).
Proof.
  intros Hfail run. subst run.
  destruct (process_files_sends fuel g overwrite_files w) as (sent & Hs & Ha).
  rewrite Hs. inversion Ha as [h b | h m Hh Hm Hb | h m reply rest b Hc].
  - left. now rewrite app_nil_r.
  - right. now exists m.
  - destruct (Hfail (calls w) m) as [e He]. congruence.
Qed.

(** The outcome of [create_flashcard] depends on the world through the log
    of calls only. *)
Lemma create_flashcard_outcome (g : FlashcardGenerator) (text : string) (w w' : world) :
  calls w' = calls w ->
  snd (create_flashcard g text w') = snd (create_flashcard g text w).
Proof.
  intros H. unfold create_flashcard, io_bind, chat, lift. rewrite H.
  now destruct (client g (calls w) (user_message text)).
Qed.

(** X16: with [overwrite_files] true, a note that is visited without an
    exception is a file; its contents, as they were before the visit, are
    sent to the collaborator once, and the output path then holds the cards
    of the reply, newly formatted, whether or not a file was there
    before. *)
Theorem visit_file_overwrites (g : FlashcardGenerator) (root file rel : string)
    (w w' : world) :
  endswith file ".md" = true ->
  relpath (cwd w) (join root file) (input_dir g) = Ok rel ->
  visit_file g true root file w = (w', Ok tt) ->
  exists content cards body,
    node_at w (join root file) = Some (File content) /\
    snd (create_flashcard g content w) = Ok cards /\
    calls w' = (calls w ++ [user_message content])%list /\
    format_flashcards cards OBSIDIAN true = Ok (TAG_LINE ++ body) /\
    node_at w' (join (output_dir g) rel) = Some (File (TAG_LINE ++ body)).
Proof.
  intros Hmd Hrel. rewrite (visit_file_note g true root file rel w Hmd Hrel). cbv zeta.
  set (out := join (output_dir g) rel).
  pose proof (makedirs_calls (dirname out) w) as Hm.
  pose proof (makedirs_no_new_file (dirname out) w (join root file)) as Hback.
  destruct (makedirs (dirname out) w) as [w1 [[] | e]]; simpl in *; [| discriminate].
  rewrite andb_false_r. intros H. apply process_file_returns in H.
  destruct H as (content & cards & text & Hin & Hc & Hf & Hw).
  destruct (format_flashcards_tagged _ _ Hf) as [body ->].
  exists content, cards, body.
  set (w2 := fst (create_flashcard g content w1)) in *.
  pose proof (write_text_written out (TAG_LINE ++ body) w2) as Hwritten.
  pose proof (write_text_log out (TAG_LINE ++ body) w2) as (Hcalls & _ & _).
  rewrite Hw in Hwritten, Hcalls. simpl in Hwritten, Hcalls.
  split; [now apply Hback | split; [| split; [| split; [assumption | now apply Hwritten]]]].
  - now rewrite <- (create_flashcard_outcome g content w w1 Hm).
  - rewrite Hcalls. unfold w2. rewrite create_flashcard_world. simpl. now rewrite Hm.
Qed.
End CallLog.

(** ** Paths *)

Lemma split_sep_not_nil (p : string) : split_sep p <> [].
Proof.
  destruct p as [| c rest]; simpl; [discriminate |].
  destruct (Ascii.eqb c "/"); [discriminate |].
  destruct (split_sep rest); discriminate.
Qed.

(** Splitting at a separator. *)
Lemma split_sep_at (x y : string) :
  split_sep (x ++ String "/" y) = (split_sep x ++ split_sep y)%list.
Proof.
  induction x as [| c x IH]; simpl.
  - reflexivity.
  - destruct (Ascii.eqb c "/").
    + now rewrite IH.
    + rewrite IH. pose proof (split_sep_not_nil x) as Hx.
      destruct (split_sep x) as [| h t]; [congruence | reflexivity].
Qed.

Lemma split_sep_name (y : string) : has_sep y = false -> split_sep y = [y].
Proof.
  induction y as [| c y IH]; simpl.
  - reflexivity.
  - intros H. apply orb_false_iff in H. destruct H as [Hc Hy].
    rewrite Hc, (IH Hy). reflexivity.
Qed.

Lemma proper_name_parts (y : string) :
  proper_name y = true ->
  String.eqb y "" = false /\ String.eqb y "." = false /\
  String.eqb y ".." = false /\ has_sep y = false.
Proof.
  unfold proper_name. intros H.
  apply andb_true_iff in H. destruct H as [H H4].
  apply andb_true_iff in H. destruct H as [H H3].
  apply andb_true_iff in H. destruct H as [H1 H2].
  apply negb_true_iff in H1, H2, H3, H4. now repeat split.
Qed.

Lemma norm_comps_name (comps : list string) (y : string) :
  proper_name y = true ->
  forall stack, norm_comps stack (comps ++ [y]) = (norm_comps stack comps ++ [y])%list.
Proof.
  intros Hy. destruct (proper_name_parts y Hy) as (H1 & H2 & H3 & _).
  induction comps as [| c comps IH]; intros stack; simpl.
  - now rewrite H1, H2, H3.
  - destruct (String.eqb c "" || String.eqb c "."); [apply IH |].
    destruct (String.eqb c ".."); apply IH.
Qed.

Lemma norm_comps_empty (comps : list string) :
  forall stack, norm_comps stack (comps ++ [""]) = norm_comps stack comps.
Proof.
  induction comps as [| c comps IH]; intros stack; simpl.
  - reflexivity.
  - destruct (String.eqb c "" || String.eqb c "."); [apply IH |].
    destruct (String.eqb c ".."); apply IH.
Qed.

Lemma lexical_comps_name (x y : string) :
  proper_name y = true ->
  lexical_comps (x ++ String "/" y) = (lexical_comps x ++ [y])%list.
Proof.
  intros Hy. unfold lexical_comps. rewrite split_sep_at.
  destruct (proper_name_parts y Hy) as (_ & _ & _ & H4).
  rewrite (split_sep_name y H4). now apply norm_comps_name.
Qed.

Lemma lexical_comps_slash (x : string) : lexical_comps (x ++ "/") = lexical_comps x.
Proof.
  unfold lexical_comps. change "/" with (String "/" ""). rewrite split_sep_at.
  apply norm_comps_empty.
Qed.

(** [endswith s "/"] looks at the last character. *)
Lemma endswith_sep_cons (c : ascii) (s : string) :
  endswith (String c s) "/" =
  match s with
  | EmptyString => Ascii.eqb c "/"
  | String _ _ => endswith s "/"
  end.
Proof.
  unfold endswith. simpl String.length. simpl Nat.leb.
  destruct s as [| d s].
  - simpl. now destruct (Ascii.eqb c "/").
  - simpl String.length. simpl Nat.sub. rewrite Nat.sub_0_r. reflexivity.
Qed.

Lemma endswith_sep_split (s : string) :
  endswith s "/" = true -> exists s', s = s' ++ "/".
Proof.
  induction s as [| c s IH].
  - discriminate.
  - rewrite endswith_sep_cons. destruct s as [| d s].
    + intros H. apply Ascii.eqb_eq in H. subst c. now exists "".
    + intros H. destruct (IH H) as [s' Hs']. exists (String c s'). simpl. now rewrite <- Hs'.
Qed.

Lemma endswith_sep_app (x m : string) :
  m <> "" -> endswith (x ++ m) "/" = endswith m "/".
Proof.
  intros Hm. induction x as [| c x IH]; simpl.
  - reflexivity.
  - rewrite endswith_sep_cons. destruct (x ++ m) as [| d r] eqn:Hxm; [| exact IH].
    destruct x; [simpl in Hxm; contradiction | discriminate].
Qed.

Lemma isabs_cons (c : ascii) (s : string) : isabs (String c s) = Ascii.eqb c "/".
Proof.
  unfold isabs, startswith.
  change (String.prefix "/" (String c s))
    with (if Ascii.ascii_dec "/" c then String.prefix "" s else false).
  destruct (Ascii.ascii_dec "/" c) as [<- | Hne].
  - now destruct s.
  - symmetry. apply Ascii.eqb_neq. congruence.
Qed.

Lemma isabs_app (m z : string) : m <> "" -> isabs (m ++ z) = isabs m.
Proof. destruct m as [| c m]; [contradiction | intros _; simpl; now rewrite !isabs_cons]. Qed.

Lemma proper_name_relative (y : string) : proper_name y = true -> isabs y = false.
Proof.
  intros Hy. destruct (proper_name_parts y Hy) as (_ & _ & _ & H4).
  destruct y as [| c y]; [reflexivity |]. rewrite isabs_cons.
  simpl in H4. now apply orb_false_iff in H4.
Qed.

(** The three shapes of a joined path whose second part is relative. *)
Lemma join_relative (a b : string) :
  isabs b = false ->
  join a b = (if String.eqb a "" || endswith a "/" then a ++ b else a ++ "/" ++ b).
Proof. unfold join, isabs. now intros ->. Qed.

Lemma str_app_not_empty (a b : string) : b <> "" -> a ++ b <> "".
Proof. destruct a; simpl; [trivial | discriminate]. Qed.

Lemma join_not_empty (a b : string) : b <> "" -> join a b <> "".
Proof.
  intros Hb. unfold join. destruct (startswith b "/"); [assumption |].
  destruct (String.eqb a "" || endswith a "/").
  - now apply str_app_not_empty.
  - apply str_app_not_empty. discriminate.
Qed.

Lemma join_isabs (a b : string) : a <> "" -> isabs b = false -> isabs (join a b) = isabs a.
Proof.
  intros Ha Hb. rewrite (join_relative a b Hb).
  destruct (String.eqb a "" || endswith a "/"); now apply isabs_app.
Qed.

(** [join] is associative when the parts after the first are relative. *)
Lemma join_assoc (c m y : string) :
  m <> "" -> isabs m = false -> isabs y = false ->
  join c (join m y) = join (join c m) y.
Proof.
  intros Hm Hrel Hy.
  assert (Hmy : isabs (join m y) = false) by (now rewrite join_isabs).
  rewrite (join_relative c (join m y) Hmy), (join_relative c m Hrel).
  rewrite (join_relative m y Hy).
  assert (Hm' : String.eqb m "" = false) by (now apply String.eqb_neq).
  rewrite Hm'. cbn [orb].
  destruct (String.eqb c "" || endswith c "/").
  - rewrite (join_relative (c ++ m) y Hy), (endswith_sep_app c m Hm).
    assert (Hcm : String.eqb (c ++ m) "" = false)
      by (apply String.eqb_neq; now apply str_app_not_empty).
    rewrite Hcm. cbn [orb].
    destruct (endswith m "/"); now rewrite !str_app_assoc.
  - rewrite (join_relative (c ++ "/" ++ m) y Hy).
    assert (Hcm : String.eqb (c ++ "/" ++ m) "" = false)
      by (apply String.eqb_neq; apply str_app_not_empty; discriminate).
    assert (He : endswith (c ++ "/" ++ m) "/" = endswith m "/").
    { rewrite <- (endswith_sep_app (c ++ "/") m Hm). now rewrite str_app_assoc. }
    rewrite Hcm, He. cbn [orb].
    destruct (endswith m "/"); now rewrite !str_app_assoc.
Qed.

(** Joining a name adds one component. *)
Lemma lexical_comps_join (a y : string) :
  proper_name y = true -> lexical_comps (join a y) = (lexical_comps a ++ [y])%list.
Proof.
  intros Hy. rewrite (join_relative a y (proper_name_relative y Hy)).
  destruct (String.eqb a "") eqn:Ha; simpl orb.
  - apply String.eqb_eq in Ha. subst a. simpl.
    destruct (proper_name_parts y Hy) as (H1 & H2 & H3 & H4).
    unfold lexical_comps. rewrite (split_sep_name y H4). simpl. now rewrite H1, H2, H3.
  - destruct (endswith a "/") eqn:He.
    + destruct (endswith_sep_split a He) as [a' ->].
      rewrite lexical_comps_slash, str_app_assoc. now apply lexical_comps_name.
    + now apply lexical_comps_name.
Qed.

Lemma abs_comps_join (cwd a y : string) :
  proper_name y = true -> abs_comps cwd (join a y) = (abs_comps cwd a ++ [y])%list.
Proof.
  intros Hy. pose proof (proper_name_relative y Hy) as Hrel.
  unfold abs_comps. fold (lexical_comps (if isabs (join a y) then join a y else join cwd (join a y))).
  fold (lexical_comps (if isabs a then a else join cwd a)).
  destruct (String.eqb a "") eqn:Ha.
  - apply String.eqb_eq in Ha. subst a.
    assert (Hj : join "" y = y) by (rewrite (join_relative "" y Hrel); reflexivity).
    rewrite Hj, Hrel. change (isabs "") with false. cbv iota.
    rewrite (lexical_comps_join cwd y Hy). f_equal.
    unfold join. simpl startswith. destruct (String.eqb cwd "" || endswith cwd "/").
    + now rewrite str_app_nil_r.
    + symmetry. apply lexical_comps_slash.
  - apply String.eqb_neq in Ha. rewrite (join_isabs a y Ha Hrel).
    destruct (isabs a) eqn:Habs.
    + now apply lexical_comps_join.
    + rewrite (join_assoc cwd a y Ha Habs Hrel). now apply lexical_comps_join.
Qed.

Lemma common_len_app (a x : list string) : common_len a (a ++ x) = List.length a.
Proof.
  induction a as [| c a IH]; simpl.
  - now destruct x.
  - now rewrite String.eqb_refl, IH.
Qed.

Lemma join_all_snoc (x : string) (rest : list string) (y : string) :
  join_all ((x :: rest) ++ [y]) = join (join_all (x :: rest)) y.
Proof. simpl. now rewrite fold_left_app. Qed.

(** Names joined together make a relative path that is not empty. *)
Lemma join_all_relative (names : list string) :
  names <> [] -> forallb proper_name names = true ->
  join_all names <> "" /\ isabs (join_all names) = false.
Proof.
  induction names as [| y names IH] using rev_ind; [contradiction |].
  intros _ H. rewrite forallb_app in H. apply andb_true_iff in H.
  destruct H as [Hnames Hy]. simpl in Hy. rewrite andb_true_r in Hy.
  pose proof (proper_name_relative y Hy) as Hrel.
  destruct (proper_name_parts y Hy) as (Hne & _).
  apply String.eqb_neq in Hne.
  destruct names as [| x rest].
  - simpl. now split.
  - rewrite join_all_snoc.
    destruct (IH ltac:(discriminate) Hnames) as [Hm Hmrel].
    split; [now apply join_not_empty | now rewrite join_isabs].
Qed.

(** Joining names to a path adds them as components. *)
Lemma abs_comps_join_all (cwd a : string) (names : list string) :
  names <> [] -> forallb proper_name names = true ->
  abs_comps cwd (join a (join_all names)) = (abs_comps cwd a ++ names)%list.
Proof.
  induction names as [| y names IH] using rev_ind; [contradiction |].
  intros _ H. rewrite forallb_app in H. apply andb_true_iff in H.
  destruct H as [Hnames Hy]. simpl in Hy. rewrite andb_true_r in Hy.
  destruct names as [| x rest].
  - simpl. now apply abs_comps_join.
  - rewrite join_all_snoc.
    destruct (join_all_relative (x :: rest) ltac:(discriminate) Hnames) as [Hm Hmrel].
    rewrite (join_assoc a _ y Hm Hmrel (proper_name_relative y Hy)).
    rewrite (abs_comps_join cwd _ y Hy), (IH ltac:(discriminate) Hnames).
    now rewrite <- app_assoc.
Qed.

(** The relative path of a note below [start] by [names]. *)
Lemma relpath_below (cwd root file start : string) (names : list string) :
  forallb proper_name names = true ->
  proper_name file = true ->
  abs_comps cwd root = (abs_comps cwd start ++ names)%list ->
  relpath cwd (join root file) start = Ok (join_all (names ++ [file])).
Proof.
  intros Hnames Hfile Hroot.
  assert (Hne : (names ++ [file])%list <> []) by (now destruct names).
  unfold relpath.
  assert (Hpath : String.eqb (join root file) "" = false).
  { apply String.eqb_neq. apply join_not_empty.
    destruct (proper_name_parts file Hfile) as (H1 & _). now apply String.eqb_neq. }
  rewrite Hpath, (abs_comps_join cwd root file Hfile), Hroot, <- app_assoc.
  rewrite common_len_app, Nat.sub_diag. simpl repeat. simpl app at 1.
  rewrite skipn_app, skipn_all, Nat.sub_diag. simpl.
  destruct (names ++ [file])%list as [| x rest] eqn:Hx; [contradiction | reflexivity].
Qed.

(** X17: the output tree mirrors the input tree.  For a note [file] in a
    directory [root] that lies below [input_dir] by the directory names
    [names], the relative path computed is these names and the file name
    joined, and the output path lies below [output_dir] by the same names
    and file name. *)
Theorem output_path_mirrors_input_path (g : FlashcardGenerator) (cwd root file : string)
    (names : list string) :
  forallb proper_name names = true ->
  proper_name file = true ->
  abs_comps cwd root = (abs_comps cwd (input_dir g) ++ names)%list ->
  relpath cwd (join root file) (input_dir g) = Ok (join_all (names ++ [file])) /\
  abs_comps cwd (join (output_dir g) (join_all (names ++ [file]))) =
    (abs_comps cwd (output_dir g) ++ names ++ [file])%list.
Proof.
  intros Hnames Hfile Hroot. split.
  - now apply relpath_below.
  - apply abs_comps_join_all; [now destruct names |].
    rewrite forallb_app, Hnames. simpl. now rewrite Hfile.
Qed.

Lemma output_path_mirrors_input_path_witness :
  forallb proper_name ["sub"] = true /\
  proper_name "b.md" = true /\
  abs_comps "/notes" "/notes/sub" = (abs_comps "/notes" (input_dir notes_generator) ++ ["sub"])%list /\
  relpath "/notes" (join "/notes/sub" "b.md") (input_dir notes_generator) = Ok "sub/b.md" /\
  abs_comps "/notes" (join (output_dir notes_generator) "sub/b.md") =
    ["notes"; "flashcards"; "sub"; "b.md"].
Proof.
  split; [reflexivity | split; [reflexivity | split; [reflexivity |]]].
  exact (output_path_mirrors_input_path notes_generator "/notes" "/notes/sub" "b.md" ["sub"]
           eq_refl eq_refl eq_refl).
Defined.

(** ** The directory of an output path *)

Lemma abs_comps_lexical (cwd p : string) :
  abs_comps cwd p = lexical_comps (if isabs p then p else join cwd p).
Proof. reflexivity. Qed.

Lemma upto_last_sep_name (f : string) : has_sep f = false -> upto_last_sep f = "".
Proof.
  induction f as [| c f IH]; simpl; [reflexivity |].
  intros H. apply orb_false_iff in H. destruct H as [Hc Hf].
  now rewrite Hc, (IH Hf).
Qed.

Lemma upto_last_sep_app (x f : string) :
  has_sep f = false -> upto_last_sep (x ++ String "/" f) = x ++ "/".
Proof.
  intros Hf. induction x as [| c x IH].
  - simpl. now rewrite (upto_last_sep_name f Hf).
  - change (String c x ++ String "/" f) with (String c (x ++ String "/" f)).
    change (String c x ++ "/") with (String c (x ++ "/")).
    cbn [upto_last_sep]. rewrite IH.
    destruct (Ascii.eqb c "/"); [reflexivity |].
    now destruct x.
Qed.

Lemma rstrip_sep_slash (x : string) : rstrip_sep (x ++ "/") = rstrip_sep x.
Proof.
  induction x as [| c x IH]; [reflexivity |].
  change (String c x ++ "/") with (String c (x ++ "/")).
  cbn [rstrip_sep]. now rewrite IH.
Qed.

(** What [rstrip_sep] removes is a run of separators. *)
Lemma rstrip_sep_split (p : string) :
  exists s, p = rstrip_sep p ++ s /\ rstrip_sep s = "".
Proof.
  induction p as [| c p IH].
  - now exists "".
  - destruct IH as (s & Hp & Hs). cbn [rstrip_sep].
    destruct (Ascii.eqb c "/" && String.eqb (rstrip_sep p) "") eqn:E.
    + exists (String c p). split; [reflexivity |]. cbn [rstrip_sep]. now rewrite E.
    + exists s. split; [| assumption].
      change (String c (rstrip_sep p) ++ s) with (String c (rstrip_sep p ++ s)).
      now rewrite <- Hp.
Qed.

(** Separators at the end of a path add no component. *)
Lemma lexical_comps_slashes (s : string) :
  rstrip_sep s = "" -> forall y, lexical_comps (y ++ s) = lexical_comps y.
Proof.
  induction s as [| c s IH]; intros H y.
  - now rewrite str_app_nil_r.
  - cbn [rstrip_sep] in H.
    destruct (Ascii.eqb c "/") eqn:Hc; [| discriminate].
    destruct (String.eqb (rstrip_sep s) "") eqn:Hs; [| discriminate].
    apply Ascii.eqb_eq in Hc. subst c. apply String.eqb_eq in Hs.
    change (String "/" s) with ("/" ++ s). rewrite <- str_app_assoc.
    rewrite (IH Hs). apply lexical_comps_slash.
Qed.

Lemma abs_comps_slashes (cwd y s : string) :
  y <> "" -> rstrip_sep s = "" -> abs_comps cwd (y ++ s) = abs_comps cwd y.
Proof.
  intros Hy Hs. rewrite !abs_comps_lexical, (isabs_app y s Hy).
  destruct (isabs y) eqn:Ha; [now apply lexical_comps_slashes |].
  assert (Hys : isabs (y ++ s) = false) by (now rewrite isabs_app).
  rewrite (join_relative cwd (y ++ s) Hys), (join_relative cwd y Ha).
  destruct (String.eqb cwd "" || endswith cwd "/").
  - rewrite <- str_app_assoc. now apply lexical_comps_slashes.
  - replace (cwd ++ "/" ++ y ++ s) with ((cwd ++ "/" ++ y) ++ s)
      by (now rewrite !str_app_assoc).
    now apply lexical_comps_slashes.
Qed.

(** The directory of a path made by joining a name to [a] is [a], up to
    the separators at its end. *)
Lemma dirname_join (cwd a file : string) :
  a <> "" -> proper_name file = true ->
  dirname (join a file) <> "" /\
  abs_comps cwd (dirname (join a file)) = abs_comps cwd a.
Proof.
  intros Ha Hf. destruct (proper_name_parts file Hf) as (_ & _ & _ & Hsep).
  assert (Hx : exists x, join a file = x ++ String "/" file /\
                         abs_comps cwd (x ++ "/") = abs_comps cwd a).
  { rewrite (join_relative a file (proper_name_relative file Hf)).
    assert (Ha' : String.eqb a "" = false) by (now apply String.eqb_neq).
    rewrite Ha'. cbn [orb].
    destruct (endswith a "/") eqn:He.
    - destruct (endswith_sep_split a He) as [a' ->]. exists a'.
      split; [now rewrite str_app_assoc | reflexivity].
    - exists a. split; [reflexivity | now apply abs_comps_slashes]. }
  destruct Hx as (x & -> & Hx). unfold dirname.
  rewrite (upto_last_sep_app x file Hsep), rstrip_sep_slash.
  destruct (String.eqb (rstrip_sep x) "") eqn:E.
  - split; [now destruct x | assumption].
  - apply String.eqb_neq in E. split; [assumption |].
    destruct (rstrip_sep_split x) as (s & Hsplit & Hs).
    rewrite <- Hx. remember (rstrip_sep x) as y eqn:Hy. rewrite Hsplit.
    rewrite str_app_assoc. symmetry.
    apply abs_comps_slashes; [assumption | now rewrite rstrip_sep_slash].
Qed.

Section OutputDirectory.
Context {rt : PyRuntime}.

(** C9, amended.  For a note [file] found in a directory [root] that lies
    below [input_dir] by the names [names], the directory handed to
    [makedirs] is the parent of the computed output path and lies below
    [output_dir], a path in normal form, by the same names.  [makedirs] runs before the output path
    is looked for, and succeeds exactly when no regular file is in its way.
    A directory that was absent is created, with its missing ancestors: it
    exists when the output path is looked for, the note is then processed,
    not skipped, and the directory is still there afterwards, whether
    processing returns or raises.  A directory that is there is left as it
    is; and a note whose output path exists already has that directory, so
    skipping it creates nothing and leaves the world unchanged. *)
Theorem output_directory_made_when_absent (g : FlashcardGenerator)
    (overwrite_files : bool) (root file : string) (names : list string) (w : world) :
  endswith file ".md" = true ->
  proper_name file = true ->
  forallb proper_name names = true ->
  abs_comps (cwd w) root = (abs_comps (cwd w) (input_dir g) ++ names)%list ->
  plain_path (output_dir g) = true ->
  let out := join (output_dir g) (join_all (names ++ [file])) in
  let dir := dirname out in
  let made := makedirs dir w in
  let visited := visit_file g overwrite_files root file w in
  relpath (cwd w) (join root file) (input_dir g) = Ok (join_all (names ++ [file])) /\
  abs_comps (cwd w) dir = (abs_comps (cwd w) (output_dir g) ++ names)%list /\
  abs_comps (cwd w) out = (abs_comps (cwd w) dir ++ [file])%list /\
  visited =
    match snd made with
    | Raise e => (w, Raise e)
    | Ok _ =>
        if exists_in (fst made) out && negb overwrite_files then (fst made, Ok tt)
        else process_file g (join root file) out false (fst made)
    end /\
  (snd made = Ok tt <-> blocked (abs_comps (cwd w) dir) (fs w) = false) /\
  (snd made = Ok tt ->
     isdir (fst made) dir = true /\
     isdir (fst visited) dir = true /\
     exists_in (fst made) out = exists_in w out) /\
  (isdir w dir = false -> snd made = Ok tt ->
     exists_in (fst made) out = false /\
     visited = process_file g (join root file) out false (fst made)) /\
  (isdir w dir = true -> made = (w, Ok tt)) /\
  (exists_in w out = true ->
     isdir w dir = true /\ (overwrite_files = false -> visited = (w, Ok tt))).
Proof.
  intros Hmd Hfile Hnames Hroot Hplain out dir made visited.
  assert (Hout : output_dir g <> "") by (intros E; now rewrite E in Hplain).
  pose proof (relpath_below (cwd w) root file (input_dir g) names Hnames Hfile Hroot) as Hrel.
  pose proof (proper_name_relative file Hfile) as Hfrel.
  assert (Hfne : file <> "").
  { destruct (proper_name_parts file Hfile) as (H1 & _). now apply String.eqb_neq. }
  (* the output path is the file name joined to a directory *)
  assert (Ha : exists a, a <> "" /\ out = join a file /\
                 abs_comps (cwd w) a = (abs_comps (cwd w) (output_dir g) ++ names)%list).
  { destruct names as [| x rest].
    - exists (output_dir g). split; [assumption | split; [reflexivity | now rewrite app_nil_r]].
    - destruct (join_all_relative (x :: rest) ltac:(discriminate) Hnames) as [Hm Hmrel].
      exists (join (output_dir g) (join_all (x :: rest))).
      split; [now apply join_not_empty | split].
      + unfold out. rewrite join_all_snoc. now apply join_assoc.
      + apply abs_comps_join_all; [discriminate | assumption]. }
  destruct Ha as (a & Hane & Houta & Hacomps).
  destruct (dirname_join (cwd w) a file Hane Hfile) as [Hdne Hdcomps].
  rewrite <- Houta in Hdne, Hdcomps. fold dir in Hdne, Hdcomps.
  assert (Hdir : abs_comps (cwd w) dir = (abs_comps (cwd w) (output_dir g) ++ names)%list)
    by (now rewrite Hdcomps).
  assert (Hoc : abs_comps (cwd w) out = (abs_comps (cwd w) dir ++ [file])%list).
  { rewrite Hdcomps, Houta. now apply abs_comps_join. }
  assert (Hone : String.eqb out "" = false).
  { apply String.eqb_neq. rewrite Houta. now apply join_not_empty. }
  apply String.eqb_neq in Hdne.
  (* the steps on the tree *)
  set (D := abs_comps (cwd w) dir) in *.
  assert (Hnd : forall v, cwd v = cwd w -> node_at v dir = lookup D (fs v)).
  { intros v Hv. unfold node_at, resolve. now rewrite Hdne, Hv. }
  assert (Hno : forall v, cwd v = cwd w ->
                  node_at v out = match lookup D (fs v) with
                                  | Some n => lookup [file] n
                                  | None => None
                                  end).
  { intros v Hv. unfold node_at, resolve. rewrite Hone, Hv, Hoc. apply lookup_app. }
  assert (Hmade : made = match mkdirs D (fs w) with
                         | Ok t => (set_fs t w, Ok tt)
                         | Raise e => (w, Raise e)
                         end).
  { unfold made, makedirs, resolve. now rewrite Hdne. }
  pose proof (visit_file_note g overwrite_files root file _ w Hmd Hrel) as Hv.
  cbv zeta in Hv. fold out in Hv. fold dir in Hv. fold made in Hv. fold visited in Hv.
  assert (Hvisited : visited =
            match snd made with
            | Raise e => (w, Raise e)
            | Ok _ =>
                if exists_in (fst made) out && negb overwrite_files then (fst made, Ok tt)
                else process_file g (join root file) out false (fst made)
            end).
  { rewrite Hv. destruct (snd made) as [[] | e] eqn:Hs; [reflexivity |].
    unfold made in *. now rewrite (makedirs_raise dir w e Hs). }
  assert (Hafter : snd made = Ok tt ->
            isdir (fst made) dir = true /\
            exists_in (fst made) out = exists_in w out /\
            (isdir w dir = false -> exists_in (fst made) out = false)).
  { intros Hs. split; [now apply makedirs_isdir |].
    rewrite Hmade in *. destruct (mkdirs D (fs w)) as [t |] eqn:Hm; [| discriminate].
    simpl fst. unfold exists_in, isdir.
    rewrite (Hno (set_fs t w) eq_refl), (Hno w eq_refl), (Hnd w eq_refl). simpl fs.
    destruct (mkdirs_cases D (fs w) t Hm) as [[-> [es Hes]] | [Hnone Hnew]].
    - rewrite Hes. split; [reflexivity | discriminate].
    - rewrite Hnone, Hnew. now split. }
  assert (Hpresent : isdir w dir = true -> made = (w, Ok tt)).
  { unfold isdir. rewrite (Hnd w eq_refl), Hmade.
    destruct (lookup D (fs w)) as [[d | es] |] eqn:Hl; try discriminate.
    intros _. rewrite (mkdirs_present D (fs w) es Hl). now rewrite set_fs_same. }
  split; [assumption | split; [assumption | split; [assumption | split; [assumption |]]]].
  split; [| split; [| split; [| split; [assumption |]]]].
  - rewrite Hmade. pose proof (mkdirs_blocked D (fs w)) as Hb.
    destruct (blocked D (fs w)).
    + destruct Hb as [e ->]. simpl. split; discriminate.
    + destruct Hb as [t ->]. simpl. now split.
  - intros Hs. destruct (Hafter Hs) as (H1 & H2 & _).
    split; [assumption | split; [| assumption]].
    rewrite Hvisited, Hs.
    destruct (exists_in (fst made) out && negb overwrite_files);
      [assumption | now apply process_file_isdir].
  - intros Habsent Hs. destruct (Hafter Hs) as (_ & _ & H3).
    specialize (H3 Habsent). split; [assumption |].
    now rewrite Hvisited, Hs, H3.
  - intros Hex.
    assert (Hd : isdir w dir = true).
    { unfold exists_in in Hex. unfold isdir.
      rewrite (Hno w eq_refl) in Hex. rewrite (Hnd w eq_refl).
      destruct (lookup D (fs w)) as [[d | es] |]; [discriminate | reflexivity | discriminate]. }
    split; [assumption |]. intros ->.
    rewrite Hvisited, (Hpresent Hd). simpl. now rewrite Hex.
Qed.
End OutputDirectory.

(** C9, as stated, fails for a skipped note: in the second run the output
    of [a.md] is there, and so is its directory; [makedirs] creates nothing,
    the note is skipped, and the world is as it was. *)
Lemma skipped_note_creates_nothing :
  endswith "a.md" ".md" = true /\
  relpath (cwd rerun_world) (join "/notes" "a.md") (input_dir notes_generator) = Ok "a.md" /\
  exists_in rerun_world (join (output_dir notes_generator) "a.md") = true /\
  makedirs (dirname (join (output_dir notes_generator) "a.md")) rerun_world
    = (rerun_world, Ok tt) /\
  visit_file (rt := sample_runtime) notes_generator false "/notes" "a.md" rerun_world
    = (rerun_world, Ok tt).
Proof. repeat split. Qed.

Lemma output_directory_made_when_absent_witness :
  let made := makedirs "/notes/flashcards/sub" notes_world in
  let visited := visit_file (rt := sample_runtime) notes_generator false "/notes/sub" "b.md"
                   notes_world in
  endswith "b.md" ".md" = true /\
  proper_name "b.md" = true /\
  forallb proper_name ["sub"] = true /\
  abs_comps (cwd notes_world) "/notes/sub" =
    (abs_comps (cwd notes_world) (input_dir notes_generator) ++ ["sub"])%list /\
  plain_path (output_dir notes_generator) = true /\
  dirname (join (output_dir notes_generator) (join_all ["sub"; "b.md"]))
    = "/notes/flashcards/sub" /\
  isdir notes_world "/notes/flashcards/sub" = false /\
  snd made = Ok tt /\
  isdir (fst made) "/notes/flashcards/sub" = true /\
  isdir (fst visited) "/notes/flashcards/sub" = true /\
  exists_in (fst made) "/notes/flashcards/sub/b.md" = false /\
  visited = process_file (rt := sample_runtime) notes_generator "/notes/sub/b.md"
              "/notes/flashcards/sub/b.md" false (fst made).
Proof.
  intros made visited.
  pose proof (output_directory_made_when_absent (rt := sample_runtime) notes_generator false
                "/notes/sub" "b.md" ["sub"] notes_world eq_refl eq_refl eq_refl eq_refl eq_refl)
    as (_ & _ & _ & _ & _ & Hmade & Hnew & _ & _).
  assert (Hs : snd made = Ok tt) by reflexivity.
  assert (Habsent : isdir notes_world "/notes/flashcards/sub" = false) by reflexivity.
  destruct (Hmade Hs) as (H1 & H2 & _).
  destruct (Hnew Habsent Hs) as (H3 & H4).
  repeat (split; [first [reflexivity | assumption] |]).
  exact H4.
Defined.

(** ** [__init__] *)




(** ** Trees with proper names *)

Lemma proper_tree_cons (name : string) (x : node) (rest : list (string * node)) :
  proper_tree (Dir ((name, x) :: rest)) =
  proper_name name && proper_tree x && proper_tree (Dir rest).
Proof. reflexivity. Qed.

Lemma proper_tree_app (es extra : list (string * node)) :
  proper_tree (Dir (es ++ extra)) = proper_tree (Dir es) && proper_tree (Dir extra).
Proof.
  induction es as [| [name x] rest IH].
  - reflexivity.
  - change (((name, x) :: rest) ++ extra)%list with ((name, x) :: (rest ++ extra))%list.
    rewrite !proper_tree_cons, IH. now rewrite andb_assoc.
Qed.

Lemma proper_tree_find (es : list (string * node)) (c : string) (n : node) :
  proper_tree (Dir es) = true -> find_entry c es = Some n -> proper_tree n = true.
Proof.
  induction es as [| [name x] rest IH].
  - discriminate.
  - rewrite proper_tree_cons. intros H.
    apply andb_true_iff in H. destruct H as [H Hr].
    apply andb_true_iff in H. destruct H as [Hn Hx].
    simpl. destruct (String.eqb name c).
    + now intros [= <-].
    + now apply IH.
Qed.

Lemma proper_tree_set (es : list (string * node)) (c : string) (n : node) :
  proper_tree (Dir es) = true -> proper_tree n = true ->
  proper_tree (Dir (set_entry c n es)) = true.
Proof.
  intros H Hn. induction es as [| [name x] rest IH].
  - reflexivity.
  - rewrite proper_tree_cons in H.
    apply andb_true_iff in H. destruct H as [H Hr].
    apply andb_true_iff in H. destruct H as [Hname Hx].
    change (set_entry c n ((name, x) :: rest))
      with (if String.eqb name c then (name, n) :: rest
            else (name, x) :: set_entry c n rest).
    destruct (String.eqb name c).
    + rewrite proper_tree_cons, Hname, Hn, Hr. reflexivity.
    + rewrite proper_tree_cons, Hname, Hx, (IH Hr). reflexivity.
Qed.

Lemma proper_tree_lookup (q : list string) (t n : node) :
  proper_tree t = true -> lookup q t = Some n -> proper_tree n = true.
Proof.
  revert t. induction q as [| c rest IH]; intros t Ht; simpl.
  - now intros [= <-].
  - destruct t as [d | es]; [discriminate |].
    destruct (find_entry c es) as [m |] eqn:Hc; [| discriminate].
    apply IH. now apply proper_tree_find with es c.
Qed.

(** The listing of a directory of such a tree holds proper names only. *)
Lemma proper_tree_listing (es : list (string * node)) :
  proper_tree (Dir es) = true ->
  proper_names (dir_names es) /\ proper_names (file_names es).
Proof.
  unfold proper_names, dir_names, file_names.
  induction es as [| [name x] rest IH].
  - intros _. split; constructor.
  - rewrite proper_tree_cons. intros H.
    apply andb_true_iff in H. destruct H as [H Hr].
    apply andb_true_iff in H. destruct H as [Hname Hx].
    destruct (IH Hr) as [Hd Hf]. simpl. destruct x as [d | sub]; simpl.
    + split; [assumption | now constructor].
    + split; [now constructor | assumption].
Qed.

Lemma proper_make_path (p : list string) :
  proper_names p -> proper_tree (make_path p) = true.
Proof.
  intros H. induction H as [| c rest Hc _ IH]; simpl.
  - reflexivity.
  - now rewrite Hc, IH.
Qed.

Lemma proper_mkdirs (p : list string) :
  proper_names p ->
  forall t t', proper_tree t = true -> mkdirs p t = Ok t' -> proper_tree t' = true.
Proof.
  intros H. induction H as [| c rest Hc Hrest IH]; intros t t' Ht; simpl.
  - destruct t; [discriminate | now intros [= <-]].
  - destruct t as [d | es]; [discriminate |].
    destruct (find_entry c es) as [m |] eqn:Hf.
    + destruct (mkdirs rest m) as [m' |] eqn:Hm; simpl; [| discriminate].
      intros [= <-]. apply proper_tree_set; [assumption |].
      apply (IH m m'); [now apply proper_tree_find with es c | assumption].
    + intros [= <-]. rewrite proper_tree_app, Ht, proper_tree_cons, Hc.
      now rewrite (proper_make_path rest Hrest).
Qed.

Lemma proper_write_node (p : list string) (data : string) :
  proper_names p ->
  forall t t', proper_tree t = true -> write_node p data t = Ok t' -> proper_tree t' = true.
Proof.
  intros H. induction H as [| c rest Hc Hrest IH]; intros t t' Ht; simpl.
  - destruct t; [now intros [= <-] | discriminate].
  - destruct t as [d | es]; [discriminate |].
    destruct (find_entry c es) as [m |] eqn:Hf.
    + destruct (write_node rest data m) as [m' |] eqn:Hm; simpl; [| discriminate].
      intros [= <-]. apply proper_tree_set; [assumption |].
      apply (IH m m'); [now apply proper_tree_find with es c | assumption].
    + destruct rest as [| c2 rest']; [| discriminate].
      intros [= <-]. rewrite proper_tree_app, Ht, proper_tree_cons, Hc. reflexivity.
Qed.

(** The components of a path string are proper names. *)
Lemma split_sep_no_sep (p : string) : Forall (fun c => has_sep c = false) (split_sep p).
Proof.
  induction p as [| c p IH]; simpl.
  - now repeat constructor.
  - destruct (Ascii.eqb c "/") eqn:Hc.
    + now constructor.
    + destruct (split_sep p) as [| h t]; [now repeat constructor; simpl; rewrite Hc |].
      inversion IH as [| ? ? Hh Ht]; subst. constructor; [| assumption].
      simpl. now rewrite Hc, Hh.
Qed.

Lemma norm_comps_proper (comps : list string) :
  Forall (fun c => has_sep c = false) comps ->
  forall stack, proper_names stack -> proper_names (norm_comps stack comps).
Proof.
  intros H. induction H as [| c rest Hc _ IH]; intros stack Hs; simpl.
  - now apply Forall_rev.
  - destruct (String.eqb c "") eqn:H1; simpl orb; [now apply IH |].
    destruct (String.eqb c ".") eqn:H2; simpl orb; [now apply IH |].
    destruct (String.eqb c "..") eqn:H3.
    + apply IH. destruct Hs; [constructor | assumption].
    + apply IH. constructor; [| assumption].
      unfold proper_name. now rewrite H1, H2, H3, Hc.
Qed.

Lemma abs_comps_proper (cwd p : string) : proper_names (abs_comps cwd p).
Proof.
  unfold abs_comps. apply norm_comps_proper; [apply split_sep_no_sep | constructor].
Qed.

Lemma comps_prefix_app (a x : list string) : comps_prefix a (a ++ x) = true.
Proof.
  induction a as [| c a IH]; simpl.
  - reflexivity.
  - now rewrite String.eqb_refl, IH.
Qed.

(** ** Where a run writes *)

(** The walk, when the body is only known to behave in the directories the
    walk can reach: [Inv] is kept by the worlds, [Q] by the directories. *)
Section WalkReach.
Variable Inv : world -> Prop.
Variable Q : string -> Prop.
Variable R : world -> world -> Prop.
Hypothesis R_refl : forall w, R w w.
Hypothesis R_trans : forall a b c, R a b -> R b c -> R a c.
Variable body : string -> list string -> list string -> io unit.
Hypothesis body_ok :
  forall root dirs files w,
    Inv w -> Q root -> scandir root w = Some (dirs, files) ->
    R w (fst (body root dirs files w)) /\ Inv (fst (body root dirs files w)).
Hypothesis descend_ok :
  forall root dirs files w d,
    Inv w -> Q root -> scandir root w = Some (dirs, files) -> In d dirs ->
    Q (join root d).

Lemma each_dir_reach (descend : string -> world -> world * option (result unit))
    (top : string) :
  (forall sub w, Inv w -> Q sub -> R w (fst (descend sub w)) /\ Inv (fst (descend sub w))) ->
  forall dirs, (forall d, In d dirs -> Q (join top d)) ->
  forall w, Inv w ->
    R w (fst (each_dir descend top dirs w)) /\ Inv (fst (each_dir descend top dirs w)).
Proof.
  intros Hd dirs. induction dirs as [| d rest IH]; intros Hq w Hw; simpl.
  - now split.
  - destruct (Hd (join top d) w Hw (Hq d (or_introl eq_refl))) as [H1 H2].
    destruct (descend (join top d) w) as [w1 [[[] | e] |]]; simpl in *; try now split.
    destruct (IH (fun x Hx => Hq x (or_intror Hx)) w1 H2) as [H3 H4].
    split; [now apply R_trans with w1 | assumption].
Qed.

Lemma walk_for_reach (fuel : nat) :
  forall top w, Inv w -> Q top ->
    R w (fst (walk_for fuel top body w)) /\ Inv (fst (walk_for fuel top body w)).
Proof.
  induction fuel as [| fuel IH]; intros top w Hw Hq; simpl.
  - now split.
  - destruct (scandir top w) as [[dirs files] |] eqn:Hs; [| now split].
    destruct (body_ok top dirs files w Hw Hq Hs) as [Hb1 Hb2].
    pose proof (descend_ok top dirs files w) as Hdesc.
    destruct (body top dirs files w) as [w1 [[] | e]]; simpl in *; [| now split].
    destruct (each_dir_reach (fun sub v => walk_for fuel sub body v) top
                (fun sub v Hv Hsub => IH sub v Hv Hsub) dirs
                (fun d Hd => Hdesc d Hw Hq Hs Hd) w1 Hb2) as [H3 H4].
    split; [now apply R_trans with w1 | assumption].
Qed.
End WalkReach.

Lemma keeps_outside_refl (below : list string) (w : world) : keeps_outside below w w.
Proof. intros q data H _. exact H. Qed.

Lemma keeps_outside_trans (below : list string) (a b c : world) :
  keeps_outside below a b -> keeps_outside below b c -> keeps_outside below a c.
Proof. intros H1 H2 q data Hq Hp. apply H2; [now apply H1 | assumption]. Qed.

Lemma keeps_keeps_outside (below : list string) (w w' : world) :
  keeps w w' -> keeps_outside below w w'.
Proof.
  intros [_ Hk] q data Hq _. destruct (Hk q _ Hq) as (n' & Hn' & Hc).
  simpl in Hc. congruence.
Qed.

Lemma makedirs_orderly (c p : string) (w : world) :
  orderly c w -> orderly c (fst (makedirs p w)).
Proof.
  intros [Hc Ht]. unfold makedirs, resolve.
  destruct (String.eqb p ""); [now split |].
  destruct (mkdirs (abs_comps (cwd w) p) (fs w)) as [t |] eqn:Hm; [| now split].
  split; [assumption |]. simpl.
  now apply (proper_mkdirs (abs_comps (cwd w) p) (abs_comps_proper _ _) (fs w) t).
Qed.

(** Writing a file below [below] keeps the files outside and the names
    proper. *)
Lemma write_text_below (c : string) (below rest : list string) (p data : string) (w : world) :
  orderly c w ->
  abs_comps c p = (below ++ rest)%list ->
  keeps_outside below w (fst (write_text p data w)) /\
  orderly c (fst (write_text p data w)).
Proof.
  intros [Hc Ht] Hp. unfold write_text, resolve.
  destruct (String.eqb p ""); [split; [apply keeps_outside_refl | now split] |].
  rewrite Hc.
  destruct (write_node (abs_comps c p) data (fs w)) as [t |] eqn:Hw;
    [| split; [apply keeps_outside_refl | now split]].
  simpl. split.
  - intros q d Hq Hout. simpl.
    destruct (write_node_continues _ _ _ _ Hw q _ Hq) as (n' & Hn' & [Hk | ->]).
    + simpl in Hk. congruence.
    + rewrite Hp, comps_prefix_app in Hout. discriminate.
  - split; [assumption |]. simpl.
    now apply (proper_write_node (abs_comps c p) data (abs_comps_proper _ _) (fs w) t).
Qed.

Section WritesBelowOutput.
Context {rt : PyRuntime}.

Lemma process_file_below (g : FlashcardGenerator) (c : string)
    (below rest : list string) (inp out : string) (w : world) :
  orderly c w ->
  abs_comps c out = (below ++ rest)%list ->
  keeps_outside below w (fst (process_file g inp out false w)) /\
  orderly c (fst (process_file g inp out false w)).
Proof.
  intros Hw Hout.
  destruct (process_file_steps g inp out false w) as [[Hf Hc] | (w1 & text & [Hf Hc] & _ & ->)].
  - destruct Hw as [Hwc Hwt]. split.
    + intros q d Hq _. now rewrite Hf.
    + split; [congruence | now rewrite Hf].
  - assert (Hw1 : orderly c w1).
    { destruct Hw as [Hwc Hwt]. split; [congruence | now rewrite Hf]. }
    destruct (write_text_below c below rest out text w1 Hw1 Hout) as [H1 H2].
    split; [| assumption].
    apply keeps_outside_trans with w1; [| assumption].
    intros q d Hq _. now rewrite Hf.
Qed.

Lemma visit_file_below (g : FlashcardGenerator) (overwrite_files : bool)
    (c root file : string) (w : world) :
  orderly c w -> lies_below c (input_dir g) root -> proper_name file = true ->
  keeps_outside (abs_comps c (output_dir g)) w
    (fst (visit_file g overwrite_files root file w)) /\
  orderly c (fst (visit_file g overwrite_files root file w)).
Proof.
  intros Hw (names & Hnames & Hroot) Hfile.
  destruct (endswith file ".md") eqn:Hmd;
    [| unfold visit_file; rewrite Hmd; split; [apply keeps_outside_refl | assumption]].
  assert (Hb : forallb proper_name names = true).
  { apply forallb_forall. now apply Forall_forall. }
  pose proof (relpath_below c root file (input_dir g) names Hb Hfile Hroot) as Hrel.
  assert (Hcw : cwd w = c) by (now destruct Hw).
  rewrite <- Hcw in Hrel.
  rewrite (visit_file_note g overwrite_files root file _ w Hmd Hrel). cbv zeta.
  set (out := join (output_dir g) (join_all (names ++ [file]))).
  assert (Hout : abs_comps c out =
                 (abs_comps c (output_dir g) ++ names ++ [file])%list).
  { apply abs_comps_join_all; [now destruct names |].
    rewrite forallb_app, Hb. simpl. now rewrite Hfile. }
  pose proof (makedirs_keeps (dirname out) w) as Hk.
  pose proof (makedirs_orderly c (dirname out) w Hw) as Ho.
  destruct (makedirs (dirname out) w) as [w1 [[] | e]]; simpl in *.
  - destruct (exists_in w1 out && negb overwrite_files).
    + split; [now apply keeps_keeps_outside | assumption].
    + destruct (process_file_below g c _ _ (join root file) out w1 Ho Hout) as [H1 H2].
      split; [| assumption].
      apply keeps_outside_trans with w1; [now apply keeps_keeps_outside | assumption].
  - split; [now apply keeps_keeps_outside | assumption].
Qed.

Lemma visit_dir_below (g : FlashcardGenerator) (overwrite_files : bool)
    (c root : string) (dirs files : list string) (w : world) :
  orderly c w -> lies_below c (input_dir g) root -> proper_names files ->
  keeps_outside (abs_comps c (output_dir g)) w
    (fst (visit_dir g overwrite_files root dirs files w)) /\
  orderly c (fst (visit_dir g overwrite_files root dirs files w)).
Proof.
  intros Hw Hroot Hfiles. unfold visit_dir.
  destruct (startswith root (output_dir g)); [split; [apply keeps_outside_refl | assumption] |].
  revert w Hw. induction Hfiles as [| file rest Hfile _ IH]; intros w Hw; simpl.
  - split; [apply keeps_outside_refl | assumption].
  - unfold io_bind.
    destruct (visit_file_below g overwrite_files c root file w Hw Hroot Hfile) as [H1 H2].
    destruct (visit_file g overwrite_files root file w) as [w1 [[] | e]]; simpl in *.
    + destruct (IH w1 H2) as [H3 H4].
      split; [now apply keeps_outside_trans with w1 | assumption].
    + now split.
Qed.

(** The listing of a directory of an orderly world. *)
Lemma scandir_orderly (c top : string) (dirs files : list string) (w : world) :
  orderly c w -> scandir top w = Some (dirs, files) ->
  proper_names dirs /\ proper_names files.
Proof.
  intros [Hc Ht]. unfold scandir, node_at.
  destruct (resolve w top) as [comps |]; [| discriminate].
  destruct (lookup comps (fs w)) as [[d | es] |] eqn:Hl; try discriminate.
  intros [= <- <-]. apply proper_tree_listing.
  now apply proper_tree_lookup with comps (fs w).
Qed.

(** X19: a run writes only below the output directory.  In a tree whose
    entries have proper names, every file that does not lie at or below
    [output_dir] has the same contents after a run of [process_files],
    whatever [overwrite_files] is and however the run ends. *)
Theorem process_files_writes_below_output (fuel : nat) (g : FlashcardGenerator)
    (overwrite_files : bool) (w : world) (p data : string) :
  proper_tree (fs w) = true ->
  node_at w p = Some (File data) ->
  is_subpath (cwd w) p (output_dir g) = false ->
  node_at (fst (process_files fuel g overwrite_files w)) p = Some (File data).
Proof.
  intros Ht Hp Hout. unfold process_files.
  destruct (walk_for_reach (orderly (cwd w)) (lies_below (cwd w) (input_dir g))
              (keeps_outside (abs_comps (cwd w) (output_dir g)))
              (keeps_outside_refl _) (keeps_outside_trans _)
              (visit_dir g overwrite_files)) with (fuel := fuel) (top := input_dir g) (w := w)
    as [Hkeep [Hcwd _]].
  - intros root dirs files v Hv Hroot Hs.
    apply visit_dir_below; [assumption | assumption |].
    now apply (scandir_orderly (cwd w) root dirs files v).
  - intros root dirs files v d Hv (names & Hnames & Hroot) Hs Hd.
    destruct (scandir_orderly (cwd w) root dirs files v Hv Hs) as [Hdirs _].
    assert (Hdn : proper_name d = true).
    { unfold proper_names in Hdirs. rewrite Forall_forall in Hdirs. now apply Hdirs. }
    exists (names ++ [d])%list. split.
    + apply Forall_app. split; [assumption | now constructor].
    + now rewrite (abs_comps_join (cwd w) root d Hdn), Hroot, <- app_assoc.
  - now split.
  - exists []. split; [constructor | now rewrite app_nil_r].
  - unfold node_at, resolve in *. rewrite Hcwd.
    destruct (String.eqb p ""); [discriminate |].
    apply Hkeep; [assumption |]. exact Hout.
Qed.
End WritesBelowOutput.

Lemma process_files_writes_below_output_witness :
  proper_tree (fs notes_world) = true /\
  node_at notes_world "/notes/sub/b.md" = Some (File "France has a capital.") /\
  is_subpath (cwd notes_world) "/notes/sub/b.md" (output_dir notes_generator) = false /\
  node_at (fst (process_files (rt := sample_runtime) 3 notes_generator true notes_world))
    "/notes/sub/b.md" = Some (File "France has a capital.").
Proof.
  split; [reflexivity | split; [reflexivity | split; [reflexivity |]]].
  exact (process_files_writes_below_output (rt := sample_runtime) 3 notes_generator true
           notes_world "/notes/sub/b.md" "France has a capital." eq_refl eq_refl eq_refl).
Defined.

(** ** Instances *)

Lemma validated_payload_is_rendered_in_full_witness :
  validate_flashcards PARIS_CARDS = Ok tt /\
  exists cards pairs,
    PARIS_CARDS = PList cards /\
    Forall2 card_of_pair cards pairs /\
    forall include_tag,
      format_flashcards (rt := sample_runtime) PARIS_CARDS OBSIDIAN include_tag =
      Ok ((if include_tag then TAG_LINE else "") ++ String.concat "" (map pair_text pairs)).
Proof.
  split; [reflexivity |].
  exact (validated_payload_is_rendered_in_full (rt := sample_runtime) PARIS_CARDS eq_refl).
Defined.

Lemma create_flashcard_failures_witness :
  snd (create_flashcard (rt := wider_runtime)
         (notes_generator_with (failing_client (APIError "down"))) "A" notes_world)
    = Raise (APIError "down") /\
  snd (create_flashcard (rt := wider_runtime)
         (notes_generator_with (constant_client "not JSON")) "A" notes_world)
    = Raise JSONDecodeError /\
  snd (create_flashcard (rt := wider_runtime)
         (notes_generator_with (constant_client REPLY_ARRAY)) "A" notes_world)
    = Raise TypeError /\
  snd (create_flashcard (rt := wider_runtime)
         (notes_generator_with (constant_client REPLY_EMPTY_OBJECT)) "A" notes_world)
    = Raise (KeyError "cards").
Proof.
  split; [| split; [| split]].
  - destruct (create_flashcard_failures (rt := wider_runtime)
                (notes_generator_with (failing_client (APIError "down"))) "A" notes_world)
      as (_ & _ & H & _).
    apply H. reflexivity.
  - destruct (create_flashcard_failures (rt := wider_runtime)
                (notes_generator_with (constant_client "not JSON")) "A" notes_world)
      as (_ & _ & _ & H & _).
    apply (H {| message_content := "not JSON"; total_tokens := 64 |}); reflexivity.
  - destruct (create_flashcard_failures (rt := wider_runtime)
                (notes_generator_with (constant_client REPLY_ARRAY)) "A" notes_world)
      as (_ & _ & _ & _ & H & _).
    apply (H {| message_content := REPLY_ARRAY; total_tokens := 64 |} (PList [PInt 1]));
      reflexivity.
  - destruct (create_flashcard_failures (rt := wider_runtime)
                (notes_generator_with (constant_client REPLY_EMPTY_OBJECT)) "A" notes_world)
      as (_ & _ & _ & _ & _ & H).
    apply (H {| message_content := REPLY_EMPTY_OBJECT; total_tokens := 64 |} []);
      reflexivity.
Defined.

Lemma process_file_writes_the_formatted_reply_witness :
  let run := process_file (rt := sample_runtime) notes_generator
               "/notes/a.md" "/notes/out.md" false notes_world in
  run = (fst run, Ok tt) /\
  exists content cards body,
    node_at notes_world "/notes/a.md" = Some (File content) /\
    snd (create_flashcard (rt := sample_runtime) notes_generator content notes_world)
      = Ok cards /\
    format_flashcards (rt := sample_runtime) cards OBSIDIAN true = Ok (TAG_LINE ++ body) /\
    node_at (fst run) "/notes/out.md" = Some (File (TAG_LINE ++ body)) /\
    calls (fst run) = (calls notes_world ++ [user_message content])%list.
Proof.
  intros run.
  assert (H : run = (fst run, Ok tt)) by (vm_compute; reflexivity).
  split; [exact H |].
  exact (process_file_writes_the_formatted_reply (rt := sample_runtime) notes_generator
           "/notes/a.md" "/notes/out.md" notes_world (fst run) H).
Defined.



Lemma process_file_print_mode_witness :
  let run := process_file (rt := sample_runtime) notes_generator
               "/notes/a.md" "/nowhere/out.md" true notes_world in
  run = (fst run, Ok tt) /\
  exists content cards text,
    node_at notes_world "/notes/a.md" = Some (File content) /\
    snd (create_flashcard (rt := sample_runtime) notes_generator content notes_world)
      = Ok cards /\
    format_flashcards (rt := sample_runtime) cards OBSIDIAN true = Ok text /\
    stdout (fst run) = (stdout notes_world ++ [text])%list.
Proof.
  intros run.
  assert (H : run = (fst run, Ok tt)) by (vm_compute; reflexivity).
  split; [exact H |].
  destruct (process_file_print_mode (rt := sample_runtime) notes_generator
              "/notes/a.md" "/nowhere/out.md" notes_world) as (_ & _ & Hp).
  exact (Hp (fst run) H).
Defined.

Lemma process_files_without_notes_witness :
  has_note (fs plain_world) = false /\
  fst (process_files (rt := sample_runtime) 5 notes_generator true plain_world)
    = plain_world.
Proof.
  split; [reflexivity |].
  exact (proj1 (process_files_without_notes (rt := sample_runtime) 5 notes_generator true
                  plain_world eq_refl)).
Defined.

Lemma process_files_failing_collaborator_witness :
  let g := notes_generator_with (failing_client (APIError "down")) in
  (forall history message, exists e, client g history message = Raise e) /\
  (calls (fst (process_files (rt := sample_runtime) 3 g false notes_world))
     = calls notes_world \/
   exists message,
     calls (fst (process_files (rt := sample_runtime) 3 g false notes_world))
       = (calls notes_world ++ [message])%list /\
     not_raised (snd (process_files (rt := sample_runtime) 3 g false notes_world)) = false).
Proof.
  intros g.
  assert (H : forall history message, exists e, client g history message = Raise e).
  { intros history message. now exists (APIError "down"). }
  split; [exact H |].
  exact (process_files_failing_collaborator (rt := sample_runtime) 3 g false notes_world H).
Defined.

Lemma visit_file_overwrites_witness :
  let run := visit_file (rt := sample_runtime) notes_generator true "/notes" "a.md"
               rerun_world in
  endswith "a.md" ".md" = true /\
  relpath (cwd rerun_world) (join "/notes" "a.md") (input_dir notes_generator) = Ok "a.md" /\
  run = (fst run, Ok tt) /\
  node_at rerun_world "/notes/flashcards/a.md" = Some (File "written by the first run") /\
  exists content cards body,
    node_at rerun_world (join "/notes" "a.md") = Some (File content) /\
    snd (create_flashcard (rt := sample_runtime) notes_generator content rerun_world)
      = Ok cards /\
    calls (fst run) = (calls rerun_world ++ [user_message content])%list /\
    format_flashcards (rt := sample_runtime) cards OBSIDIAN true = Ok (TAG_LINE ++ body) /\
    node_at (fst run) (join (output_dir notes_generator) "a.md")
      = Some (File (TAG_LINE ++ body)).
Proof.
  intros run.
  assert (H : run = (fst run, Ok tt)) by (vm_compute; reflexivity).
  split; [reflexivity | split; [reflexivity | split; [exact H | split; [reflexivity |]]]].
  exact (visit_file_overwrites (rt := sample_runtime) notes_generator "/notes" "a.md" "a.md"
           rerun_world (fst run) eq_refl eq_refl H).
Defined.

(** ** The output directory is never walked into *)

Lemma each_dir_fixed_on (descend : string -> world -> world * option (result unit))
    (w : world) (top : string) (dirs : list string) :
  (forall d, In d dirs ->
     fst (descend (join top d) w) = w /\ not_raised (snd (descend (join top d) w)) = true) ->
  fst (each_dir descend top dirs w) = w /\
  not_raised (snd (each_dir descend top dirs w)) = true.
Proof.
  induction dirs as [| d rest IH]; intros Hd; simpl.
  - now split.
  - destruct (Hd d (or_introl eq_refl)) as [H1 H2].
    destruct (descend (join top d) w) as [w1 [[[] | e] |]]; simpl in *; subst.
    + apply IH. intros x Hx. apply Hd. now right.
    + discriminate.
    + now split.
Qed.

Section OutputNotWalked.
Context {rt : PyRuntime}.

(** X20: what lies in the output directory is never read or sent.  In a tree
    whose entries have proper names, the walk started at a directory whose
    path string begins with the string [output_dir] changes nothing and
    raises nothing, whatever the directory holds: every directory it reaches
    is skipped. *)
Theorem walk_below_output_is_idle (g : FlashcardGenerator) (overwrite_files : bool)
    (w : world) :
  proper_tree (fs w) = true ->
  forall fuel suffix,
    fst (walk_for fuel (output_dir g ++ suffix) (visit_dir g overwrite_files) w) = w /\
    not_raised (snd (walk_for fuel (output_dir g ++ suffix) (visit_dir g overwrite_files) w))
      = true.
Proof.
  intros Ht fuel. induction fuel as [| fuel IH]; intros suffix; simpl.
  - now split.
  - unfold scandir, node_at.
    destruct (resolve w (output_dir g ++ suffix)) as [comps |]; [| now split].
    destruct (lookup comps (fs w)) as [[d | entries] |] eqn:Hl; try now split.
    rewrite visit_dir_below_output.
    apply each_dir_fixed_on. intros d Hd.
    assert (Hproper : proper_name d = true).
    { destruct (proper_tree_listing entries
                  (proper_tree_lookup comps (fs w) _ Ht Hl)) as [Hdirs _].
      unfold proper_names in Hdirs. rewrite Forall_forall in Hdirs. now apply Hdirs. }
    rewrite (join_relative _ d (proper_name_relative d Hproper)).
    destruct (String.eqb (output_dir g ++ suffix) "" || endswith (output_dir g ++ suffix) "/").
    + rewrite str_app_assoc. apply IH.
    + rewrite str_app_assoc. apply IH.
Qed.
End OutputNotWalked.

Lemma walk_below_output_is_idle_witness :
  proper_tree (fs notes_world) = true /\
  fst (walk_for 4 (output_dir notes_generator ++ "")
         (visit_dir (rt := sample_runtime) notes_generator true) notes_world) = notes_world.
Proof.
  split; [reflexivity |].
  exact (proj1 (walk_below_output_is_idle (rt := sample_runtime) notes_generator true
                  notes_world eq_refl 4 "")).
Defined.
